(** * prometheus-grafana-demo/app.py: the metrics demo service

    A shallow embedding of the Flask application of
    [src/prometheus-grafana-demo/app.py]: two process-wide metrics
    ([REQUEST_COUNT], [REQUEST_LATENCY]) and three views ([index],
    [healthz], [metrics]).

    Conventions of the embedding:
    - a Python [float] is an exact rational ([Q]); rounding is not modelled,
      so no statement here bounds a measured duration: where rounding
      decides, line 24 is evaluated on binary64 ([latency_binary64]);
    - the views are written in a small program monad ([Prog]) whose
      constructors are the effects the views perform (clock, random source,
      sleep, the calls into the metrics client), every effect being one
      atomic step; [run] executes a view for one request, [pool_step]
      interleaves several of them;
    - what the environment decides for one request (the random bits, how
      long a sleep overshoots, the values of the built-in process metrics)
      is an explicit input ([Env]);
    - the metrics client and the web framework are libraries, not part of
      the sources: their operations are modelled as the specification
      describes them, each under a comment that says so.
    The server loop ([app.run]) is represented by the list of the requests
    it hands to the views; every request is a GET. *)

From Corelib Require Import PrimInt63 PrimFloat.
From Stdlib Require Import ZArith QArith Lqa.
From stdpp Require Import gmap strings pretty list.

Local Open Scope string_scope.

(** ** Python values *)

Inductive Exception :=
| ValueError (msg : string).

Inductive Result (A : Type) :=
| Ok (a : A)
| Err (e : Exception).
Arguments Ok {A} a.
Arguments Err {A} e.

(** A keyword argument value: the views pass strings and one integer. *)
Inductive PyVal :=
| PyStr (s : string)
| PyInt (n : Z).

(** Python's [str()]. *)
Definition str (v : PyVal) : string :=
  match v with
  | PyStr s => s
  | PyInt n => pretty n
  end.

Definition Qltb (x y : Q) : bool := negb (Qle_bool y x).

(** Python's [sorted] on strings (insertion sort on the code-point order). *)
Fixpoint sorted_insert (s : string) (l : list string) : list string :=
  match l with
  | [] => [s]
  | t :: l' => if String.leb s t then s :: l else t :: sorted_insert s l'
  end.

Definition sorted (l : list string) : list string :=
  foldr sorted_insert [] l.

(** ** The metrics client: declarations and state *)

(** An upper bound of a histogram bucket; [PosInf] is [float("inf")]. *)
Inductive Bound :=
| Finite (q : Q)
| PosInf.

(** [amount <= bound] as Python evaluates it. *)
Definition le_bound (amount : Q) (b : Bound) : bool :=
  match b with
  | Finite q => Qle_bool amount q
  | PosInf => true
  end.

Record Counter := {
  c_name : string;
  c_documentation : string;
  c_labelnames : list string;
}.

Record Histogram := {
  h_name : string;
  h_documentation : string;
  h_buckets : list Q;
}.

(** Modelled from the spec: the histogram has the declared bucket bounds;
    as in the client library they are followed by an implicit [+Inf]
    bucket, whose cumulative count is the number of samples. *)
Definition upper_bounds (h : Histogram) : list Bound :=
  (Finite <$> h_buckets h) ++ [PosInf].

(** app.py, lines 8-12. *)
Definition REQUEST_COUNT : Counter := {|
  c_name := "sample_app_request_total";
  c_documentation := "Total number of HTTP requests handled";
  c_labelnames := ["endpoint"; "method"; "http_status"];
|}.

(** app.py, lines 13-17. *)
Definition REQUEST_LATENCY : Histogram := {|
  h_name := "sample_app_request_latency_seconds";
  h_documentation := "Request latency";
  h_buckets := [0.005; 0.01; 0.025; 0.05; 0.1; 0.25; 0.5; 1; 2; 5]%Q;
|}.

(** A child of a labelled counter is identified by its tuple of label
    values. *)
Abbreviation Child := (list string).

(** The mutable part of the process: the wall clock and the values the two
    metrics hold.  [count_children] is the [_metrics] dictionary of
    [REQUEST_COUNT] (label values to value); [latency_buckets] holds one
    (non-cumulative) count per upper bound of [REQUEST_LATENCY]. *)
Record World := {
  now : Q;
  count_children : gmap (list string) Q;
  latency_buckets : list Q;
  latency_sum : Q;
}.

Definition set_now (t : Q) (w : World) : World :=
  {| now := t; count_children := count_children w;
     latency_buckets := latency_buckets w; latency_sum := latency_sum w |}.

Definition set_count_children (m : gmap (list string) Q) (w : World) : World :=
  {| now := now w; count_children := m;
     latency_buckets := latency_buckets w; latency_sum := latency_sum w |}.

Definition set_latency (bs : list Q) (s : Q) (w : World) : World :=
  {| now := now w; count_children := count_children w;
     latency_buckets := bs; latency_sum := s |}.

(** The state right after the module is imported at time [t0]: no child,
    every bucket at zero. *)
Definition fresh (t0 : Q) : World := {|
  now := t0;
  count_children := ∅;
  latency_buckets := (λ _, 0%Q) <$> upper_bounds REQUEST_LATENCY;
  latency_sum := 0%Q;
|}.

(** *** Library operations on the state *)

(** Modelled from the spec: [Histogram.observe] adds one sample to the
    distribution and the amount to the running sum.  As in the client
    library the state holds one count per bucket, and the sample goes to the
    first bucket whose bound is not below it; the exposition cumulates the
    counts ([cumulative], [bucket_count]). *)
Fixpoint observe_buckets (bounds : list Bound) (counts : list Q) (amount : Q)
  : list Q :=
  match bounds, counts with
  | b :: bounds', c :: counts' =>
      if le_bound amount b then (c + 1)%Q :: counts'
      else c :: observe_buckets bounds' counts' amount
  | _, _ => counts
  end.

Definition hist_observe (amount : Q) (w : World) : World :=
  set_latency
    (observe_buckets (upper_bounds REQUEST_LATENCY) (latency_buckets w) amount)
    (latency_sum w + amount)%Q
    w.

(** Modelled from the spec: the counter is keyed by its label values.  As
    in the client library, [Counter.labels] called with keyword arguments
    checks the keyword names against the declared label names and turns
    every value into a string, in the declared order. *)
Fixpoint kwarg (name : string) (kwargs : list (string * PyVal)) : option PyVal :=
  match kwargs with
  | [] => None
  | (n, v) :: rest => if String.eqb n name then Some v else kwarg name rest
  end.

Fixpoint labelvalues (names : list string) (kwargs : list (string * PyVal))
  : option (list string) :=
  match names with
  | [] => Some []
  | n :: names' =>
      match kwarg n kwargs, labelvalues names' kwargs with
      | Some v, Some vs => Some (str v :: vs)
      | _, _ => None
      end
  end.

Definition check_labels (c : Counter) (kwargs : list (string * PyVal))
  : Result Child :=
  match c_labelnames c with
  | [] => Err (ValueError "No label names were set when constructing the metric")
  | _ =>
      if decide (sorted (fst <$> kwargs) = sorted (c_labelnames c)) then
        match labelvalues (c_labelnames c) kwargs with
        | Some vs => Ok vs
        | None => Err (ValueError "Incorrect label names")
        end
      else Err (ValueError "Incorrect label names")
  end.

(** Modelled from the spec: keys are created lazily, at zero, by the first
    [labels] call that names them. *)
Definition get_child (lv : Child) (w : World) : World :=
  match count_children w !! lv with
  | Some _ => w
  | None => set_count_children (<[lv := 0%Q]> (count_children w)) w
  end.

(** Modelled from the spec: [inc] adds the amount to the value of the
    child, in one indivisible operation. *)
Definition child_inc (c : Child) (amount : Q) (w : World) : World :=
  set_count_children (alter (λ v, (v + amount)%Q) c (count_children w)) w.

(** *** The exposition *)

Inductive LabelValue :=
| LStr (s : string)
| LBound (b : Bound).

(** One series of the exposition: name, labels, value. *)
Record Sample := {
  s_name : string;
  s_labels : list (string * LabelValue);
  s_value : Q;
}.

Fixpoint cumulative (acc : Q) (counts : list Q) : list Q :=
  match counts with
  | [] => []
  | c :: counts' => (acc + c)%Q :: cumulative (acc + c)%Q counts'
  end.

Definition total (counts : list Q) : Q := foldr Qplus 0%Q counts.

Definition counter_samples (c : Counter) (m : gmap (list string) Q)
  : list Sample :=
  (λ kv, {| s_name := c_name c;
            s_labels := zip (c_labelnames c) (LStr <$> kv.1);
            s_value := kv.2 |}) <$> map_to_list m.

Definition histogram_samples (h : Histogram) (counts : list Q) (sum : Q)
  : list Sample :=
  ((λ bv, {| s_name := h_name h ++ "_bucket";
             s_labels := [("le", LBound bv.1)];
             s_value := bv.2 |}) <$> zip (upper_bounds h) (cumulative 0 counts))
  ++ [ {| s_name := h_name h ++ "_count"; s_labels := []; s_value := total counts |};
       {| s_name := h_name h ++ "_sum"; s_labels := []; s_value := sum |} ].

(** Modelled from the spec: [generate_latest()] serializes the default
    registry: the built-in process and runtime metrics (their values are
    the environment's, [builtin]) and the two metrics declared above.  The
    exposition is kept in parsed form, one [Sample] per series; comment
    lines, number formatting and the [_created] series are left out. *)
Definition collect (builtin : list Sample) (w : World) : list Sample :=
  builtin
  ++ counter_samples REQUEST_COUNT (count_children w)
  ++ histogram_samples REQUEST_LATENCY (latency_buckets w) (latency_sum w).

(** Modelled from the spec: the content type the client library announces
    for the text exposition format. *)
Definition CONTENT_TYPE_LATEST : string :=
  "text/plain; version=0.0.4; charset=utf-8".

(** ** HTTP responses *)

Inductive Json :=
| JBool (b : bool)
| JFloat (x : Q).

Inductive Body :=
| BJson (fields : list (string * Json))
| BText (s : string)
| BMetrics (samples : list Sample).

Record Response := {
  status : Z;
  content_type : option string;
  body : Body;
}.

(** Flask's [jsonify] on a dictionary: a 200 response of type JSON. *)
Definition jsonify (fields : list (string * Json)) : Response :=
  {| status := 200; content_type := Some "application/json"; body := BJson fields |}.

(** A view returning the pair [(text, status)]. *)
Definition text_response (s : string) (st : Z) : Response :=
  {| status := st; content_type := None; body := BText s |}.

(** A view returning the triple [(data, status, {"Content-Type": ct})]. *)
Definition data_response (data : list Sample) (st : Z) (ct : string) : Response :=
  {| status := st; content_type := Some ct; body := BMetrics data |}.

(** What the framework answers by itself. *)
Definition not_found : Response := text_response "Not Found" 404.
Definition internal_server_error : Response := text_response "Internal Server Error" 500.

(** ** Programs *)

(** A view is a tree of effects.  Every constructor but [Ret] and [Raise]
    is one call that leaves the view's own code, with the continuation that
    receives its result. *)
Inductive Prog (A : Type) :=
| Ret (a : A)
| Raise (e : Exception)
| TimeTime (k : Q → Prog A)
| RandomBits (k : Z → Prog A)
| Sleep (secs : Q) (k : Prog A)
| Observe (amount : Q) (k : Prog A)
| Labels (lv : Child) (k : Child → Prog A)
| Inc (c : Child) (amount : Q) (k : Prog A)
| Collect (k : list Sample → Prog A).
Arguments Ret {A} a.
Arguments Raise {A} e.
Arguments TimeTime {A} k.
Arguments RandomBits {A} k.
Arguments Sleep {A} secs k.
Arguments Observe {A} amount k.
Arguments Labels {A} lv k.
Arguments Inc {A} c amount k.
Arguments Collect {A} k.

Fixpoint bind {A B} (p : Prog A) (f : A → Prog B) : Prog B :=
  match p with
  | Ret a => f a
  | Raise e => Raise e
  | TimeTime k => TimeTime (λ t, bind (k t) f)
  | RandomBits k => RandomBits (λ n, bind (k n) f)
  | Sleep secs k => Sleep secs (bind k f)
  | Observe amount k => Observe amount (bind k f)
  | Labels lv k => Labels lv (λ c, bind (k c) f)
  | Inc c amount k => Inc c amount (bind k f)
  | Collect k => Collect (λ d, bind (k d) f)
  end.

Declare Scope prog_scope.
Delimit Scope prog_scope with prog.
Notation "x <- c1 ; c2" := (bind c1 (λ x, c2))
  (at level 100, c1 at next level, right associativity,
   format "'[v' x  <-  c1 ; '/' c2 ']'") : prog_scope.
Notation "'do' c1 ; c2" := (bind c1 (λ _, c2))
  (at level 100, c1 at next level, right associativity,
   format "'[v' 'do'  c1 ; '/' c2 ']'") : prog_scope.
Local Open Scope prog_scope.

(** *** The calls the views make *)

(** [time.time()]. *)
Definition time_time : Prog Q := TimeTime Ret.

(** [random.random()]: 53 random bits scaled into [[0, 1)]. *)
Definition random_random : Prog Q :=
  RandomBits (λ n, Ret (inject_Z (n mod 2 ^ 53) / inject_Z (2 ^ 53))%Q).

(** [random.uniform(a, b)] is [a + (b - a) * random()]. *)
Definition random_uniform (a b : Q) : Prog Q :=
  r <- random_random;
  Ret (a + (b - a) * r)%Q.

(** [time.sleep(secs)] refuses a negative length. *)
Definition time_sleep (secs : Q) : Prog unit :=
  if Qltb secs 0 then Raise (ValueError "sleep length must be non-negative")
  else Sleep secs (Ret ()).

(** [REQUEST_LATENCY.observe(amount)]. *)
Definition observe (amount : Q) : Prog unit := Observe amount (Ret ()).

(** [REQUEST_COUNT.labels(...)]. *)
Definition labels (kwargs : list (string * PyVal)) : Prog Child :=
  match check_labels REQUEST_COUNT kwargs with
  | Ok lv => Labels lv Ret
  | Err e => Raise e
  end.

(** [child.inc(amount)], where [amount] is 1 when the call gives none; a
    counter refuses a negative amount. *)
Definition inc (c : Child) (amount : Q) : Prog unit :=
  if Qltb amount 0
  then Raise (ValueError "Counters can only be incremented by non-negative amounts.")
  else Inc c amount (Ret ()).

(** [generate_latest()]. *)
Definition generate_latest : Prog (list Sample) := Collect Ret.

(** ** The views (app.py, lines 19-36) *)

Definition index : Prog Response :=
  start <- time_time;
  secs <- random_uniform 0.005 0.2;
  do time_sleep secs;
  t <- time_time;
  let latency := (t - start)%Q in
  do observe latency;
  child <- labels [("endpoint", PyStr "/"); ("method", PyStr "GET");
                   ("http_status", PyInt 200)];
  do inc child 1;
  Ret (jsonify [("ok", JBool true); ("latency_seconds", JFloat latency)]).

Definition healthz : Prog Response :=
  Ret (text_response "ok" 200).

Definition metrics : Prog Response :=
  data <- generate_latest;
  Ret (data_response data 200 CONTENT_TYPE_LATEST).

(** The routes declared by [@app.route].  A path is the one the framework's
    router has resolved (decoding and normalising the URL is the
    framework's, and not modelled). *)
Definition url_map : list (string * Prog Response) :=
  [("/", index); ("/healthz", healthz); ("/metrics", metrics)].

Fixpoint route (path : string) (rules : list (string * Prog Response))
  : option (Prog Response) :=
  match rules with
  | [] => None
  | (p, view) :: rules' => if String.eqb p path then Some view else route path rules'
  end.

(** ** Running one request *)

(** What the environment decides while one request is handled. *)
Record Env := {
  rand_bits : Z;          (* the bits the random source delivers *)
  oversleep : Q;          (* time that passes beyond the requested sleep *)
  builtin : list Sample;  (* the built-in process and runtime series *)
}.

(** The effects a run performs, in order. *)
Inductive Effect :=
| ETime (t : Q)
| ERandom (n : Z)
| ESleep (secs : Q)
| EObserve (amount : Q)
| ELabels (lv : Child)
| EInc (c : Child) (amount : Q)
| ECollect.

(** The effects that change the value of a metric. *)
Definition is_mutation (ev : Effect) : bool :=
  match ev with
  | EObserve _ | EInc _ _ => true
  | _ => false
  end.

(** The histogram observations among them. *)
Definition is_observation (ev : Effect) : bool :=
  match ev with
  | EObserve _ => true
  | _ => false
  end.

Definition mutations (tr : list Effect) : list Effect := filter is_mutation tr.

Definition Outcome (A : Type) : Type := Result A * World * list Effect.

Definition after {A} (ev : Effect) (o : Outcome A) : Outcome A :=
  (o.1.1, o.1.2, ev :: o.2).

Fixpoint run {A} (p : Prog A) (e : Env) (w : World) : Outcome A :=
  match p with
  | Ret a => (Ok a, w, [])
  | Raise x => (Err x, w, [])
  | TimeTime k => after (ETime (now w)) (run (k (now w)) e w)
  | RandomBits k => after (ERandom (rand_bits e)) (run (k (rand_bits e)) e w)
  | Sleep secs k =>
      after (ESleep secs) (run k e (set_now (now w + secs + oversleep e)%Q w))
  | Observe amount k => after (EObserve amount) (run k e (hist_observe amount w))
  | Labels lv k => after (ELabels lv) (run (k lv) e (get_child lv w))
  | Inc c amount k => after (EInc c amount) (run k e (child_inc c amount w))
  | Collect k => after ECollect (run (k (collect (builtin e) w)) e w)
  end.

Definition result_of {A} (o : Outcome A) : Result A := o.1.1.
Definition world_of {A} (o : Outcome A) : World := o.1.2.
Definition trace_of {A} (o : Outcome A) : list Effect := o.2.

(** ** The process: requests served one after the other *)

(** A request is a GET of a path, with what the environment decides while
    it is handled. *)
Definition Request : Type := string * Env.

Definition dispatch (path : string) : Prog Response :=
  match route path url_map with
  | Some view => view
  | None => Ret not_found
  end.

Definition handle (r : Request) (w : World) : Response * World :=
  let o := run (dispatch r.1) r.2 w in
  match result_of o with
  | Ok resp => (resp, world_of o)
  | Err _ => (internal_server_error, world_of o)
  end.

Fixpoint serve (w : World) (rs : list Request) : World :=
  match rs with
  | [] => w
  | r :: rs' => serve (handle r w).2 rs'
  end.

(** Number of requests of a history that were routed to [path]. *)
Definition calls (path : string) (rs : list Request) : nat :=
  length (filter (λ r : Request, r.1 = path) rs).

(** ** Reading the metrics *)

(** The value of the counter for a label combination (zero before the
    child exists, as a query over the exposition sees it). *)
Definition counter_value (lv : Child) (w : World) : Q :=
  default 0%Q (count_children w !! lv).

(** The counter summed over all label combinations. *)
Definition counter_total (w : World) : Q :=
  map_fold (λ _ v acc, (v + acc)%Q) 0%Q (count_children w).

(** The number of samples of the histogram. *)
Definition histogram_count (w : World) : Q := total (latency_buckets w).

(** The cumulative count of the [i]-th bucket. *)
Definition bucket_count (i : nat) (w : World) : Q :=
  total (take (S i) (latency_buckets w)).

(** The key the index view counts under. *)
Definition index_key : Child := ["/"; "GET"; "200"].

(** ** Notions the statements use *)

(** The outcome of a run continued by a second run. *)
Definition and_then {A B} (o : Outcome A) (f : A → World → Outcome B) : Outcome B :=
  match result_of o with
  | Ok a =>
      let o' := f a (world_of o) in
      (result_of o', world_of o', (trace_of o ++ trace_of o')%list)
  | Err x => (Err x, world_of o, trace_of o)
  end.

(** The value [random.random()] computes from the delivered bits. *)
Definition unit_draw (n : Z) : Q := (inject_Z (n mod 2 ^ 53) / inject_Z (2 ^ 53))%Q.

(** The duration [index] asks to sleep for. *)
Definition index_secs (e : Env) : Q := (0.005 + (0.2 - 0.005) * unit_draw (rand_bits e))%Q.

(** The clock reading after the sleep. *)
Definition index_end (e : Env) (w : World) : Q := (now w + index_secs e + oversleep e)%Q.

(** The duration [index] measures. *)
Definition index_latency (e : Env) (w : World) : Q := (index_end e w - now w)%Q.

(** The state [index] leaves: the clock after the sleep, the sample in the
    histogram, the child fetched and incremented. *)
Definition index_world (e : Env) (w : World) : World :=
  child_inc index_key 1
    (get_child index_key
       (hist_observe (index_latency e w) (set_now (index_end e w) w))).

(** The effects of one run of [index], in order. *)
Definition index_trace (e : Env) (w : World) : list Effect :=
  [ETime (now w); ERandom (rand_bits e); ESleep (index_secs e);
   ETime (index_end e w); EObserve (index_latency e w);
   ELabels index_key; EInc index_key 1].

(** The dictionary [index] hands to [jsonify]. *)
Definition index_body (latency : Q) : list (string * Json) :=
  [("ok", JBool true); ("latency_seconds", JFloat latency)].

(** The order on bucket bounds, and a list of bounds in ascending order. *)
Definition bound_leb (b b' : Bound) : bool :=
  match b, b' with
  | Finite q, Finite q' => Qle_bool q q'
  | _, PosInf => true
  | PosInf, Finite _ => false
  end.

Fixpoint bounds_sorted (bs : list Bound) : bool :=
  match bs with
  | b :: (b' :: _) as rest => bound_leb b b' && bounds_sorted rest
  | _ => true
  end.

(** The state of the histogram has one count per bucket. *)
Definition well_formed (w : World) : Prop :=
  length (latency_buckets w) = length (upper_bounds REQUEST_LATENCY).

(** A count, as the float the metrics hold. *)
Definition Qnat (n : nat) : Q := inject_Z (Z.of_nat n).

(** An environment for examples: all-zero random bits, an exact sleep, no
    built-in series. *)
Definition quiet : Env := {| rand_bits := 0; oversleep := 0; builtin := [] |}.


(** * Requests handled concurrently *)

(** A request being handled: what is left of its view, the environment's
    decisions for it, and, while it sleeps, the time it is to wake at. *)
Record Thread := {
  t_code : Prog Response;
  t_env : Env;
  t_wake : option Q;
}.

(** The thread goes on with [p], awake. *)
Definition continue (th : Thread) (p : Prog Response) : Thread :=
  {| t_code := p; t_env := t_env th; t_wake := None |}.

(** One step of one thread: the next effect of its view, performed
    atomically on the shared state.  A sleep takes two steps, falling asleep
    and waking up, the second one enabled once the clock has reached the
    wake-up time; a finished thread has no step. *)
Definition thread_step (w : World) (th : Thread) : option (World * Thread) :=
  match t_code th with
  | Ret _ | Raise _ => None
  | TimeTime k => Some (w, continue th (k (now w)))
  | RandomBits k => Some (w, continue th (k (rand_bits (t_env th))))
  | Sleep secs k =>
      match t_wake th with
      | None =>
          Some (w, {| t_code := t_code th; t_env := t_env th;
                      t_wake := Some (now w + secs)%Q |})
      | Some t => if Qle_bool t (now w) then Some (w, continue th k) else None
      end
  | Observe amount k => Some (hist_observe amount w, continue th k)
  | Labels lv k => Some (get_child lv w, continue th (k lv))
  | Inc c amount k => Some (child_inc c amount w, continue th k)
  | Collect k => Some (w, continue th (k (collect (builtin (t_env th)) w)))
  end.

(** The requests in flight and the state they share. *)
Record Pool := {
  world : World;
  threads : list Thread;
}.

(** What the scheduler may do next: let time pass, or run one thread for
    one step. *)
Inductive Action :=
| Tick (dt : Q)
| Step (i : nat).

(** One action of the scheduler; [None] when the action is not enabled
    (time running backwards, no such thread, a thread that is finished or
    still asleep). *)
Definition pool_step (a : Action) (p : Pool) : option Pool :=
  match a with
  | Tick dt =>
      if Qle_bool 0 dt
      then Some {| world := set_now (now (world p) + dt)%Q (world p);
                   threads := threads p |}
      else None
  | Step i =>
      match threads p !! i with
      | Some th =>
          match thread_step (world p) th with
          | Some (w', th') => Some {| world := w'; threads := <[i := th']> (threads p) |}
          | None => None
          end
      | None => None
      end
  end.

(** A schedule: the actions taken, in order. *)
Fixpoint pool_run (sched : list Action) (p : Pool) : option Pool :=
  match sched with
  | [] => Some p
  | a :: sched' =>
      match pool_step a p with
      | Some p' => pool_run sched' p'
      | None => None
      end
  end.

(** All the requests of [rs] in flight at once, none started yet. *)
Definition spawn (rs : list Request) (w : World) : Pool :=
  {| world := w;
     threads := (λ r : Request,
                   {| t_code := dispatch r.1; t_env := r.2; t_wake := None |}) <$> rs |}.

(** The view has returned or raised. *)
Definition finished (th : Thread) : bool :=
  match t_code th with
  | Ret _ | Raise _ => true
  | _ => false
  end.

Definition all_finished (p : Pool) : bool := forallb finished (threads p).

(** The view answered (rather than raised). *)
Definition answered (th : Thread) : Prop := ∃ resp, t_code th = Ret resp.

(** ** What a view still owes the metrics *)

(** [owes b o i p]: on every path, [p] performs exactly [o] more
    observations and [i] more increments by one of the child [index_key],
    asks for no other child, and raises nothing; [b] tells whether [p]
    already holds that child. *)
Inductive owes {A : Type} : bool → nat → nat → Prog A → Prop :=
| owes_ret b a : owes b 0 0 (Ret a)
| owes_time b o i k : (∀ t, owes b o i (k t)) → owes b o i (TimeTime k)
| owes_random b o i k : (∀ n, owes b o i (k n)) → owes b o i (RandomBits k)
| owes_sleep b o i secs k : owes b o i k → owes b o i (Sleep secs k)
| owes_observe b o i x k : owes b o i k → owes b (S o) i (Observe x k)
| owes_labels b o i k : owes true o i (k index_key) → owes b o i (Labels index_key k)
| owes_inc o i k : owes true o i k → owes true o (S i) (Inc index_key 1 k)
| owes_collect b o i k : (∀ d, owes b o i (k d)) → owes b o i (Collect k).

(** The child of [index_key] exists. *)
Definition present (w : World) : Prop := is_Some (count_children w !! index_key).

(** The debts of all the threads of a pool, summed. *)
Inductive pool_owes (w : World) : list Thread → nat → nat → Prop :=
| pool_owes_nil : pool_owes w [] 0 0
| pool_owes_cons th ths b o i O I :
    owes b o i (t_code th) → (b = true → present w) →
    pool_owes w ths O I →
    pool_owes w (th :: ths) (o + O) (i + I).

(** [advances w w' dobs dinc]: from [w] to [w'] the histogram took [dobs]
    samples and the child [index_key] was incremented [dinc] times, nothing
    else having changed in the metrics. *)
Definition advances (w w' : World) (dobs dinc : nat) : Prop :=
  (present w → present w')
  ∧ (well_formed w → well_formed w')
  ∧ (counter_total w' == counter_total w + Qnat dinc)%Q
  ∧ (counter_value index_key w' == counter_value index_key w + Qnat dinc)%Q
  ∧ (well_formed w → (histogram_count w' == histogram_count w + Qnat dobs)%Q).

(** The invariant of a pool that started with [n] calls of [index]: what
    the metrics hold and what the threads still owe add up to [n]. *)
Definition pool_inv (n : nat) (p : Pool) : Prop :=
  well_formed (world p)
  ∧ ∃ O I,
      pool_owes (world p) (threads p) O I
      ∧ (counter_total (world p) + Qnat I == Qnat n)%Q
      ∧ (counter_value index_key (world p) + Qnat I == Qnat n)%Q
      ∧ (histogram_count (world p) + Qnat O == Qnat n)%Q.

(** ** A schedule that interleaves all the calls *)

(** Every thread in turn, one step each. *)
Definition burst (n : nat) : list Action := Step <$> seq 0 n.

(** [n] calls of [index] run in lockstep: all read the clock, all draw, all
    fall asleep, one second passes, all wake up, read the clock, observe,
    fetch the child and increment. *)
Definition lockstep (n : nat) : list Action :=
  (burst n ++ burst n ++ burst n ++ [Tick 1]
   ++ burst n ++ burst n ++ burst n ++ burst n ++ burst n)%list.

(** One call of [index] on its own: the clock is read, the bits are drawn,
    the thread falls asleep, the requested time and the overshoot pass, and
    the thread runs to its end. *)
Definition solo (e : Env) : list Action :=
  [Step 0; Step 0; Step 0; Tick (index_secs e); Tick (oversleep e);
   Step 0; Step 0; Step 0; Step 0; Step 0].

(** A hundred calls of [index], each with its own random bits. *)
Definition hundred_calls : list Request :=
  (λ i : nat, ("/", {| rand_bits := Z.of_nat i * 90071992547409;
                       oversleep := 0; builtin := [] |})) <$> seq 0 100.

(** * Notions for the further properties *)

(** The responses a history gets, in order. *)
Fixpoint responses (w : World) (rs : list Request) : list Response :=
  match rs with
  | [] => []
  | r :: rs' => (handle r w).1 :: responses (handle r w).2 rs'
  end.

(** The value of a field of a JSON object. *)
Fixpoint json_field (name : string) (fields : list (string * Json)) : option Json :=
  match fields with
  | [] => None
  | (n, v) :: rest => if String.eqb n name then Some v else json_field name rest
  end.

(** The latency a response reports: the latency_seconds field of a JSON
    answer. *)
Definition reported_latency (resp : Response) : option Q :=
  match body resp with
  | BJson fields =>
      match json_field "latency_seconds" fields with
      | Some (JFloat x) => Some x
      | _ => None
      end
  | _ => None
  end.


(** The sleeps among the effects of a run. *)
Definition is_sleep (ev : Effect) : bool :=
  match ev with
  | ESleep _ => true
  | _ => false
  end.

(** A response reports a latency. *)
Definition reports (resp : Response) : bool :=
  match reported_latency resp with
  | Some _ => true
  | None => false
  end.

(** A response reports a latency that the bucket of bound [b] takes. *)
Definition takes (b : Bound) (resp : Response) : bool :=
  match reported_latency resp with
  | Some x => le_bound x b
  | None => false
  end.

(** The responses whose reported latency the bucket of bound [b] takes. *)
Definition hits (b : Bound) (resps : list Response) : nat :=
  length (filter (takes b) resps).


(** An environment in which the wall clock is set back by one second while
    the request sleeps. *)
Definition set_back : Env := {| rand_bits := 0; oversleep := -1; builtin := [] |}.

(** The binary64 reading of a clock that shows [num / den] seconds: the
    float nearest to the quotient. *)
Definition reading (num den : PrimInt63.int) : PrimFloat.float :=
  PrimFloat.div (PrimFloat.of_uint63 num) (PrimFloat.of_uint63 den).

(** Line 24 of app.py as Python evaluates it, on binary64 clock readings:
    [latency = time.time() - start]. *)
Definition latency_binary64 (start t : PrimFloat.float) : PrimFloat.float :=
  PrimFloat.sub t start.

(** [owes_ordered b o i p]: [owes b o i p], and at every point of [p] no
    more observations than increments are left: an increment is never
    performed before the observation that goes with it. *)
Inductive owes_ordered {A : Type} : bool → nat → nat → Prog A → Prop :=
| ordered_ret b a : owes_ordered b 0 0 (Ret a)
| ordered_time b o i k :
    (∀ t, owes_ordered b o i (k t)) → owes_ordered b o i (TimeTime k)
| ordered_random b o i k :
    (∀ n, owes_ordered b o i (k n)) → owes_ordered b o i (RandomBits k)
| ordered_sleep b o i secs k :
    owes_ordered b o i k → owes_ordered b o i (Sleep secs k)
| ordered_observe b o i x k :
    owes_ordered b o i k → (S o ≤ i)%nat → owes_ordered b (S o) i (Observe x k)
| ordered_labels b o i k :
    owes_ordered true o i (k index_key) → owes_ordered b o i (Labels index_key k)
| ordered_inc o i k :
    owes_ordered true o i k → owes_ordered true o (S i) (Inc index_key 1 k)
| ordered_collect b o i k :
    (∀ d, owes_ordered b o i (k d)) → owes_ordered b o i (Collect k).

(** What is left of the thread's view observes before it increments. *)
Definition ordered (th : Thread) : Prop := ∃ b o i, owes_ordered b o i (t_code th).

(** Three calls of [index] in flight together. *)
Definition three_calls : list Request := [("/", quiet); ("/", quiet); ("/", quiet)].

(** [n] calls of [index] run in lockstep up to the point where all have
    observed their latency and none has incremented the counter. *)
Definition observed_only (n : nat) : list Action :=
  (burst n ++ burst n ++ burst n ++ [Tick 1] ++ burst n ++ burst n ++ burst n)%list.

(** The series of the request counter for the key of [index]. *)
Definition index_series (v : Q) : Sample :=
  {| s_name := "sample_app_request_total";
     s_labels := [("endpoint", LStr "/"); ("method", LStr "GET");
                  ("http_status", LStr "200")];
     s_value := v |}.

(** An environment whose random bits fall in the middle of the range: the
    sleep asked for is a little above 100 ms. *)
Definition midway : Env := {| rand_bits := 2 ^ 52; oversleep := 0; builtin := [] |}.

(** * Properties *)

(** ** The model on concrete inputs *)

Example check_labels_index :
  check_labels REQUEST_COUNT
    [("endpoint", PyStr "/"); ("method", PyStr "GET"); ("http_status", PyInt 200)]
  = Ok ["/"; "GET"; "200"].
Proof. reflexivity. Qed.

Example check_labels_any_order :
  check_labels REQUEST_COUNT
    [("http_status", PyInt 404); ("endpoint", PyStr "/x"); ("method", PyStr "GET")]
  = Ok ["/x"; "GET"; "404"].
Proof. reflexivity. Qed.

Example check_labels_wrong_name :
  check_labels REQUEST_COUNT
    [("endpoint", PyStr "/"); ("verb", PyStr "GET"); ("http_status", PyInt 200)]
  = Err (ValueError "Incorrect label names").
Proof. reflexivity. Qed.

Example time_sleep_negative :
  time_sleep (-1) = Raise (ValueError "sleep length must be non-negative").
Proof. reflexivity. Qed.

(** A sample of 70 ms goes to the bucket of bound 0.1. *)
Example observe_70ms :
  latency_buckets (hist_observe 0.07 (fresh 0))
  = [0; 0; 0; 0; 1; 0; 0; 0; 0; 0; 0]%Q
  ∧ cumulative 0 (latency_buckets (hist_observe 0.07 (fresh 0)))
    = [0; 0; 0; 0; 1; 1; 1; 1; 1; 1; 1]%Q.
Proof. split; reflexivity. Qed.

(** A sample above every declared bound is kept by the [+Inf] bucket. *)
Example observe_7s :
  latency_buckets (hist_observe 7 (fresh 0))
  = [0; 0; 0; 0; 0; 0; 0; 0; 0; 0; 1]%Q.
Proof. reflexivity. Qed.

Example unknown_path :
  handle ("/nope", quiet) (fresh 0) = (not_found, fresh 0).
Proof. reflexivity. Qed.

(** ** Sequencing *)

Lemma and_then_after {A B} ev (o : Outcome A) (f : A → World → Outcome B) :
  and_then (after ev o) f = after ev (and_then o f).
Proof.
  destruct o as [[[a|x] w] tr]; reflexivity.
Qed.

Lemma run_bind {A B} (p : Prog A) (f : A → Prog B) e w :
  run (bind p f) e w = and_then (run p e w) (λ a w', run (f a) e w').
Proof.
  revert w.
  induction p as [a|x|k IH|k IH|secs k IH|amount k IH|lv k IH|c amount k IH|k IH];
    intros w; simpl; try rewrite IH; rewrite ?and_then_after; try reflexivity.
  unfold and_then, result_of, world_of, trace_of; simpl.
  by destruct (run (f a) e w) as [[r w'] tr].
Qed.

(** ** The random draw and the sleep *)

Lemma unit_draw_range n : (0 <= unit_draw n)%Q ∧ (unit_draw n < 1)%Q.
Proof.
  unfold unit_draw.
  assert (Hpos : (0 < inject_Z (2 ^ 53))%Q) by (change 0%Q with (inject_Z 0); rewrite <- Zlt_Qlt; lia).
  pose proof (Z.mod_pos_bound n (2 ^ 53) ltac:(lia)) as [Hlo Hhi].
  split.
  - apply Qle_shift_div_l; [exact Hpos|]. rewrite Qmult_0_l.
    change 0%Q with (inject_Z 0). rewrite <- Zle_Qle. exact Hlo.
  - apply Qlt_shift_div_r; [exact Hpos|]. rewrite Qmult_1_l.
    rewrite <- Zlt_Qlt. exact Hhi.
Qed.

Lemma index_secs_range e : (0.005 <= index_secs e)%Q ∧ (index_secs e <= 0.2)%Q.
Proof.
  unfold index_secs. destruct (unit_draw_range (rand_bits e)) as [Hlo Hhi].
  split; lra.
Qed.

Lemma Qltb_false x y : (y <= x)%Q → Qltb x y = false.
Proof.
  intros H. unfold Qltb. apply Qle_bool_iff in H. by rewrite H.
Qed.

Lemma time_sleep_nonneg secs : (0 <= secs)%Q → time_sleep secs = Sleep secs (Ret ()).
Proof.
  intros H. unfold time_sleep. by rewrite Qltb_false.
Qed.

Lemma labels_index :
  labels [("endpoint", PyStr "/"); ("method", PyStr "GET"); ("http_status", PyInt 200)]
  = Labels index_key Ret.
Proof. reflexivity. Qed.

(** ** One run of [index] *)

Lemma run_index e w :
  run index e w
  = (Ok (jsonify (index_body (index_latency e w))), index_world e w, index_trace e w).
Proof.
  unfold index. rewrite labels_index. simpl.
  fold (unit_draw (rand_bits e)). fold (index_secs e).
  rewrite time_sleep_nonneg by (pose proof (index_secs_range e); lra).
  reflexivity.
Qed.

Lemma index_latency_eq e w : (index_latency e w == index_secs e + oversleep e)%Q.
Proof. unfold index_latency, index_end. ring. Qed.

Lemma run_healthz e w : run healthz e w = (Ok (text_response "ok" 200), w, []).
Proof. reflexivity. Qed.

Lemma run_metrics e w :
  run metrics e w
  = (Ok (data_response (collect (builtin e) w) 200 CONTENT_TYPE_LATEST), w, [ECollect]).
Proof. reflexivity. Qed.

(** ** The counter *)

Lemma Qeq_PreOrder : PreOrder Qeq.
Proof. split; [exact Qeq_refl | exact Qeq_trans]. Qed.

Lemma total_fold_proper (j : list string) (z : Q) :
  Proper (Qeq ==> Qeq) (λ acc : Q, (z + acc)%Q).
Proof. intros x y Hxy. by rewrite Hxy. Qed.

Lemma map_total_insert (m : gmap (list string) Q) lv v :
  m !! lv = None →
  (map_fold (λ _ v acc, v + acc) 0 (<[lv := v]> m) == v + map_fold (λ _ v acc, v + acc) 0 m)%Q.
Proof.
  intros Hnone.
  apply (map_fold_insert Qeq (PreOrder0 := Qeq_PreOrder) (λ _ v acc, v + acc)%Q).
  - apply total_fold_proper.
  - intros. ring.
  - exact Hnone.
Qed.

Lemma map_total_delete (m : gmap (list string) Q) lv v :
  m !! lv = Some v →
  (map_fold (λ _ v acc, v + acc) 0 m == v + map_fold (λ _ v acc, v + acc) 0 (delete lv m))%Q.
Proof.
  intros Hsome.
  apply (map_fold_delete Qeq (PreOrder0 := Qeq_PreOrder) (λ _ v acc, v + acc)%Q).
  - apply total_fold_proper.
  - intros. ring.
  - exact Hsome.
Qed.

Lemma get_child_lookup lv lv' w :
  count_children (get_child lv w) !! lv'
  = match count_children w !! lv' with
    | Some v => Some v
    | None => if decide (lv = lv') then Some 0%Q else None
    end.
Proof.
  unfold get_child. destruct (count_children w !! lv) as [v|] eqn:E; simpl.
  - destruct (decide (lv = lv')) as [<-|Hne].
    + by rewrite E.
    + by destruct (count_children w !! lv').
  - destruct (decide (lv = lv')) as [<-|Hne].
    + by rewrite lookup_insert_eq, E.
    + rewrite lookup_insert_ne by done. by destruct (count_children w !! lv').
Qed.

Lemma get_child_present lv w : is_Some (count_children (get_child lv w) !! lv).
Proof.
  rewrite get_child_lookup. destruct (count_children w !! lv); [by eexists|].
  rewrite decide_True by done. by eexists.
Qed.

Lemma get_child_value lv lv' w :
  counter_value lv' (get_child lv w) = counter_value lv' w.
Proof.
  unfold counter_value. rewrite get_child_lookup.
  destruct (count_children w !! lv'); [done|]. by destruct (decide (lv = lv')).
Qed.

Lemma get_child_total lv w : (counter_total (get_child lv w) == counter_total w)%Q.
Proof.
  unfold counter_total, get_child.
  destruct (count_children w !! lv) as [v|] eqn:E; simpl; [reflexivity|].
  rewrite map_total_insert by done. ring.
Qed.

Lemma child_inc_lookup c amount lv w :
  count_children (child_inc c amount w) !! lv
  = if decide (c = lv) then (λ v, (v + amount)%Q) <$> count_children w !! lv
    else count_children w !! lv.
Proof.
  unfold child_inc; simpl. destruct (decide (c = lv)) as [<-|Hne].
  - by rewrite lookup_alter_eq.
  - by rewrite lookup_alter_ne.
Qed.

Lemma child_inc_total c amount w :
  is_Some (count_children w !! c) →
  (counter_total (child_inc c amount w) == counter_total w + amount)%Q.
Proof.
  intros [v Hv]. unfold counter_total, child_inc; simpl.
  rewrite (map_total_delete (count_children w) c v Hv).
  assert (alter (λ v0 : Q, (v0 + amount)%Q) c (count_children w)
          = <[c := (v + amount)%Q]> (delete c (count_children w))) as ->.
  { apply map_eq; intros lv. destruct (decide (c = lv)) as [<-|Hne].
    - by rewrite lookup_alter_eq, lookup_insert_eq, Hv.
    - by rewrite lookup_alter_ne, lookup_insert_ne, lookup_delete_ne. }
  rewrite map_total_insert by apply lookup_delete_eq. ring.
Qed.

(** ** The histogram *)

Lemma le_bound_trans x b b' :
  le_bound x b = true → bound_leb b b' = true → le_bound x b' = true.
Proof.
  destruct b as [q|], b' as [q'|]; simpl; try done.
  rewrite !Qle_bool_iff. intros; lra.
Qed.

Lemma bounds_sorted_tail b bs : bounds_sorted (b :: bs) = true → bounds_sorted bs = true.
Proof.
  destruct bs as [|b' bs]; [done|]. simpl. intros H.
  by apply andb_prop in H as [_ H].
Qed.

(** Past the first bucket that takes a sample, every bucket takes it. *)
Lemma le_bound_sorted x b bs :
  bounds_sorted (b :: bs) = true → le_bound x b = true →
  ∀ i b', bs !! i = Some b' → le_bound x b' = true.
Proof.
  revert b. induction bs as [|b1 bs IH]; intros b Hs Hb i b' Hi; [done|].
  simpl in Hs. apply andb_prop in Hs as [Hle Hs].
  assert (le_bound x b1 = true) as Hb1 by eauto using le_bound_trans.
  destruct i as [|i]; simpl in Hi.
  - by injection Hi as <-.
  - eapply IH; eauto.
Qed.

Lemma total_cons c cs : total (c :: cs) = (c + total cs)%Q.
Proof. reflexivity. Qed.

Lemma observe_buckets_length bs cs x :
  length (observe_buckets bs cs x) = length cs.
Proof.
  revert cs. induction bs as [|b bs IH]; intros [|c cs]; simpl; try done.
  destruct (le_bound x b); simpl; [done|]. by rewrite IH.
Qed.

(** The cumulative count of bucket [i] grows by one exactly when its bound
    is not below the sample. *)
Lemma observe_buckets_cumulative bs cs x i b :
  bounds_sorted bs = true → length cs = length bs → bs !! i = Some b →
  (total (take (S i) (observe_buckets bs cs x))
   == total (take (S i) cs) + (if le_bound x b then 1 else 0))%Q.
Proof.
  revert cs i. induction bs as [|b0 bs IH]; intros cs i Hs Hlen Hi; [done|].
  destruct cs as [|c cs]; [done|]. simpl in Hlen.
  simpl observe_buckets. destruct (le_bound x b0) eqn:E0.
  - assert (le_bound x b = true) as ->.
    { destruct i as [|i]; simpl in Hi; [by injection Hi as <-|].
      eapply le_bound_sorted; eauto. }
    simpl take. rewrite !total_cons. ring.
  - destruct i as [|i]; simpl in Hi.
    + injection Hi as <-. rewrite E0. simpl. ring.
    + simpl take. rewrite !total_cons.
      rewrite (IH cs i) by eauto using bounds_sorted_tail with lia. ring.
Qed.

(** A sample is never lost: some bucket takes it when the last bound is
    [+Inf]. *)
Lemma observe_buckets_total bs cs x :
  length cs = length bs → last bs = Some PosInf →
  (total (observe_buckets bs cs x) == total cs + 1)%Q.
Proof.
  revert cs. induction bs as [|b0 bs IH]; intros cs Hlen Hlast; [done|].
  destruct cs as [|c cs]; [done|]. simpl in Hlen.
  simpl observe_buckets. destruct (le_bound x b0) eqn:E0.
  - rewrite !total_cons. ring.
  - rewrite !total_cons. destruct bs as [|b1 bs].
    + simpl in Hlast. injection Hlast as ->. done.
    + rewrite IH by (done || lia). ring.
Qed.


Lemma upper_bounds_sorted : bounds_sorted (upper_bounds REQUEST_LATENCY) = true.
Proof. reflexivity. Qed.

Lemma upper_bounds_last : last (upper_bounds REQUEST_LATENCY) = Some PosInf.
Proof. reflexivity. Qed.

Lemma fresh_well_formed t0 : well_formed (fresh t0).
Proof. reflexivity. Qed.

Lemma hist_observe_well_formed x w : well_formed w → well_formed (hist_observe x w).
Proof.
  unfold well_formed, hist_observe, set_latency; cbn [latency_buckets]. intros H.
  by rewrite observe_buckets_length.
Qed.

Lemma hist_observe_count x w :
  well_formed w → (histogram_count (hist_observe x w) == histogram_count w + 1)%Q.
Proof.
  intros H. unfold histogram_count, hist_observe, set_latency; cbn [latency_buckets].
  apply observe_buckets_total; [exact H|exact upper_bounds_last].
Qed.

Lemma hist_observe_bucket x w i b :
  well_formed w → upper_bounds REQUEST_LATENCY !! i = Some b →
  (bucket_count i (hist_observe x w)
   == bucket_count i w + (if le_bound x b then 1 else 0))%Q.
Proof.
  intros H Hi. unfold bucket_count, hist_observe, set_latency; cbn [latency_buckets].
  apply observe_buckets_cumulative; [exact upper_bounds_sorted|exact H|exact Hi].
Qed.

(** ** Effect of one request on the state *)

Lemma dispatch_spec path :
  dispatch path
  = if decide (path = "/") then index
    else if decide (path = "/healthz") then healthz
    else if decide (path = "/metrics") then metrics
    else Ret not_found.
Proof.
  unfold dispatch, url_map, route.
  destruct (String.eqb_spec "/" path) as [<-|H1]; [done|].
  destruct (String.eqb_spec "/healthz" path) as [<-|H2]; [done|].
  destruct (String.eqb_spec "/metrics" path) as [<-|H3]; [done|].
  rewrite !decide_False by congruence. done.
Qed.

Lemma handle_index e w :
  handle ("/", e) w = (jsonify (index_body (index_latency e w)), index_world e w).
Proof.
  unfold handle. cbn [fst snd]. change (dispatch "/") with index.
  by rewrite run_index.
Qed.

(** Only [index] changes the state. *)
Lemma handle_world r w :
  (handle r w).2 = if decide (r.1 = "/") then index_world r.2 w else w.
Proof.
  destruct r as [path e]. cbn [fst snd].
  destruct (decide (path = "/")) as [->|H1]; [by rewrite handle_index|].
  unfold handle. cbn [fst snd]. rewrite dispatch_spec.
  rewrite decide_False by done.
  destruct (decide (path = "/healthz")); [done|].
  destruct (decide (path = "/metrics")); done.
Qed.

Lemma index_world_lookup e w lv :
  count_children (index_world e w) !! lv
  = if decide (lv = index_key) then Some (counter_value index_key w + 1)%Q
    else count_children w !! lv.
Proof.
  unfold index_world. rewrite child_inc_lookup, get_child_lookup.
  unfold hist_observe, set_latency, set_now, counter_value; cbn [count_children].
  destruct (decide (lv = index_key)) as [->|Hne].
  - rewrite !decide_True by done. by destruct (count_children w !! index_key).
  - rewrite !decide_False by done. by destruct (count_children w !! lv).
Qed.

Lemma index_world_value e w :
  counter_value index_key (index_world e w) = (counter_value index_key w + 1)%Q.
Proof.
  unfold counter_value at 1. rewrite index_world_lookup. by rewrite decide_True.
Qed.


Lemma index_world_well_formed e w : well_formed w → well_formed (index_world e w).
Proof.
  intros H. unfold index_world, well_formed, child_inc, get_child.
  destruct (count_children _ !! index_key); cbn [latency_buckets set_count_children];
    by apply hist_observe_well_formed.
Qed.

Lemma index_world_latency e w :
  latency_buckets (index_world e w)
  = latency_buckets (hist_observe (index_latency e w) w)
  ∧ latency_sum (index_world e w) = (latency_sum w + index_latency e w)%Q.
Proof.
  unfold index_world, child_inc, get_child.
  by destruct (count_children _ !! index_key).
Qed.

Lemma index_world_count e w :
  well_formed w →
  (histogram_count (index_world e w) == histogram_count w + 1)%Q.
Proof.
  intros H. unfold histogram_count.
  rewrite (proj1 (index_world_latency e w)). by apply hist_observe_count.
Qed.

Lemma index_world_bucket e w i b :
  well_formed w → upper_bounds REQUEST_LATENCY !! i = Some b →
  (bucket_count i (index_world e w)
   == bucket_count i w + (if le_bound (index_latency e w) b then 1 else 0))%Q.
Proof.
  intros H Hi. unfold bucket_count.
  rewrite (proj1 (index_world_latency e w)). by apply hist_observe_bucket.
Qed.

(** ** Histories *)

Lemma Qnat_S n : (Qnat (S n) == Qnat n + 1)%Q.
Proof.
  unfold Qnat. rewrite Nat2Z.inj_succ, <- Z.add_1_r, inject_Z_plus. reflexivity.
Qed.

Lemma calls_cons path r rs :
  calls path (r :: rs) = if decide (r.1 = path) then S (calls path rs) else calls path rs.
Proof.
  unfold calls. rewrite filter_cons. by destruct (decide (r.1 = path)).
Qed.

Lemma handle_well_formed r w : well_formed w → well_formed (handle r w).2.
Proof.
  intros H. rewrite handle_world.
  destruct (decide (r.1 = "/")); [by apply index_world_well_formed|done].
Qed.

Lemma serve_well_formed w rs : well_formed w → well_formed (serve w rs).
Proof.
  revert w. induction rs as [|r rs IH]; intros w H; [done|].
  simpl. by apply IH, handle_well_formed.
Qed.

Lemma serve_value w rs :
  (counter_value index_key (serve w rs)
   == counter_value index_key w + Qnat (calls "/" rs))%Q.
Proof.
  revert w. induction rs as [|r rs IH]; intros w.
  - simpl. change (Qnat _) with 0%Q. ring.
  - simpl serve. rewrite IH, handle_world, calls_cons.
    destruct (decide (r.1 = "/")); [|reflexivity].
    rewrite index_world_value, Qnat_S. ring.
Qed.



Lemma serve_keys w rs lv :
  is_Some (count_children (serve w rs) !! lv) →
  lv = index_key ∨ is_Some (count_children w !! lv).
Proof.
  revert w. induction rs as [|r rs IH]; intros w H; [by right|].
  simpl in H. apply IH in H as [->|H]; [by left|].
  rewrite handle_world in H. destruct (decide (r.1 = "/")); [|by right].
  rewrite index_world_lookup in H.
  destruct (decide (lv = index_key)); [by left|by right].
Qed.

(** ** Reading the exposition *)

Lemma collect_child b w lv v :
  count_children w !! lv = Some v →
  {| s_name := "sample_app_request_total";
     s_labels := zip ["endpoint"; "method"; "http_status"] (LStr <$> lv);
     s_value := v |} ∈ collect b w.
Proof.
  intros Hv. unfold collect. apply elem_of_app; right. apply elem_of_app; left.
  unfold counter_samples. apply list_elem_of_fmap.
  exists (lv, v). split; [done|]. by apply elem_of_map_to_list.
Qed.

Lemma collect_count b w :
  {| s_name := "sample_app_request_latency_seconds_count"; s_labels := [];
     s_value := histogram_count w |} ∈ collect b w.
Proof.
  unfold collect. apply elem_of_app; right. apply elem_of_app; right.
  unfold histogram_samples. apply elem_of_app; right.
  apply list_elem_of_here.
Qed.

Lemma collect_sum b w :
  {| s_name := "sample_app_request_latency_seconds_sum"; s_labels := [];
     s_value := latency_sum w |} ∈ collect b w.
Proof.
  unfold collect. apply elem_of_app; right. apply elem_of_app; right.
  unfold histogram_samples. apply elem_of_app; right.
  apply list_elem_of_further, list_elem_of_here.
Qed.

(** ** Concurrent handling: what a view still owes *)

Lemma owes_index : owes false 1 1 index.
Proof.
  unfold index. rewrite labels_index. simpl.
  constructor; intros start. constructor; intros n.
  fold (unit_draw n).
  rewrite time_sleep_nonneg by (pose proof (unit_draw_range n); lra).
  simpl. repeat constructor.
Qed.

Lemma owes_dispatch path :
  owes false (if decide (path = "/") then 1 else 0)
       (if decide (path = "/") then 1 else 0) (dispatch path).
Proof.
  rewrite dispatch_spec. destruct (decide (path = "/")); [apply owes_index|].
  destruct (decide (path = "/healthz")); [constructor|].
  destruct (decide (path = "/metrics")); repeat constructor.
Qed.

Lemma pool_owes_spawn rs w :
  pool_owes w (threads (spawn rs w)) (calls "/" rs) (calls "/" rs).
Proof.
  induction rs as [|r rs IH]; [constructor|].
  unfold spawn; cbn [threads]. rewrite fmap_cons, calls_cons.
  pose proof (owes_dispatch r.1) as Hr.
  destruct (decide (r.1 = "/")).
  - apply (pool_owes_cons w _ _ false 1 1); [exact Hr|done|exact IH].
  - apply (pool_owes_cons w _ _ false 0 0); [exact Hr|done|exact IH].
Qed.

(** ** One step pays what it takes off the debt *)

Lemma Qnat_add a b : (Qnat (a + b) == Qnat a + Qnat b)%Q.
Proof. unfold Qnat. by rewrite Nat2Z.inj_add, inject_Z_plus. Qed.

Lemma advances_now t w : advances w (set_now t w) 0 0.
Proof.
  unfold advances, present, well_formed, counter_total, counter_value, histogram_count.
  cbn [set_now count_children latency_buckets]. change (Qnat 0) with 0%Q.
  repeat split; try done; intros; ring.
Qed.

Lemma advances_refl w : advances w w 0 0.
Proof.
  unfold advances. change (Qnat 0) with 0%Q.
  repeat split; try done; intros; ring.
Qed.

Lemma advances_observe x w : advances w (hist_observe x w) 1 0.
Proof.
  unfold advances. split; [done|]. split; [apply hist_observe_well_formed|].
  change (Qnat 0) with 0%Q. change (Qnat 1) with 1%Q.
  split; [|split].
  - unfold counter_total, hist_observe, set_latency; cbn [count_children]. ring.
  - unfold counter_value, hist_observe, set_latency; cbn [count_children]. ring.
  - apply hist_observe_count.
Qed.

Lemma advances_labels w : advances w (get_child index_key w) 0 0.
Proof.
  unfold advances. change (Qnat 0) with 0%Q.
  split; [intros _; apply get_child_present|].
  split; [unfold well_formed, get_child; by destruct (count_children w !! index_key)|].
  split; [rewrite get_child_total; ring|].
  split; [rewrite get_child_value; ring|].
  intros _. unfold histogram_count, get_child.
  destruct (count_children w !! index_key); cbn [latency_buckets set_count_children]; ring.
Qed.

Lemma advances_inc w : present w → advances w (child_inc index_key 1 w) 0 1.
Proof.
  intros Hp. unfold advances. change (Qnat 0) with 0%Q. change (Qnat 1) with 1%Q.
  split; [|split; [done|split; [|split]]].
  - intros [v Hv]. unfold present. rewrite child_inc_lookup, decide_True, Hv by done.
    by eexists.
  - by apply child_inc_total.
  - destruct Hp as [v Hv]. unfold counter_value.
    rewrite child_inc_lookup, decide_True, Hv by done. reflexivity.
  - intros _. unfold histogram_count, child_inc; cbn [latency_buckets set_count_children]. ring.
Qed.

Ltac pay_with adv :=
  cbn [t_code continue];
  split; [solve [eauto | constructor; eauto]
         |split; [solve [eauto]|split; [reflexivity|split; [reflexivity|exact adv]]]].

Lemma thread_step_owes w th w' th' b o i :
  thread_step w th = Some (w', th') →
  owes b o i (t_code th) → (b = true → present w) →
  ∃ b' o' i' dobs dinc,
    owes b' o' i' (t_code th') ∧ (b' = true → present w')
    ∧ o = (dobs + o')%nat ∧ i = (dinc + i')%nat
    ∧ advances w w' dobs dinc.
Proof.
  intros Hstep Ho Hb. destruct th as [code env wake]. cbn [t_code] in Ho.
  unfold thread_step in Hstep. cbn [t_code t_env t_wake] in Hstep.
  destruct Ho as [b a|b o i k Hk|b o i k Hk|b o i secs k Hk|b o i x k Hk
                 |b o i k Hk|o i k Hk|b o i k Hk].
  - done.
  - injection Hstep as <- <-. exists b, o, i, 0%nat, 0%nat.
    pay_with (advances_refl w).
  - injection Hstep as <- <-. exists b, o, i, 0%nat, 0%nat.
    pay_with (advances_refl w).
  - destruct wake as [t|].
    + destruct (Qle_bool t (now w)); [|done].
      injection Hstep as <- <-. exists b, o, i, 0%nat, 0%nat.
      pay_with (advances_refl w).
    + injection Hstep as <- <-. exists b, o, i, 0%nat, 0%nat.
      pay_with (advances_refl w).
  - injection Hstep as <- <-. exists b, o, i, 1%nat, 0%nat.
    pay_with (advances_observe x w).
  - injection Hstep as <- <-. exists true, o, i, 0%nat, 0%nat.
    pose proof (get_child_present index_key w).
    pay_with (advances_labels w).
  - injection Hstep as <- <-. exists true, o, i, 0%nat, 1%nat.
    pose proof (advances_inc w (Hb eq_refl)) as Hadv.
    pose proof (proj1 Hadv (Hb eq_refl)).
    pay_with Hadv.
  - injection Hstep as <- <-. exists b, o, i, 0%nat, 0%nat.
    pay_with (advances_refl w).
Qed.

Lemma pool_owes_mono w w' ths O I :
  (present w → present w') → pool_owes w ths O I → pool_owes w' ths O I.
Proof.
  intros Hp H. induction H as [|th ths b o i O I Ho Hb _ IH]; [constructor|].
  econstructor; eauto.
Qed.

Lemma pool_owes_step w ths O I idx th w' th' :
  pool_owes w ths O I → ths !! idx = Some th →
  thread_step w th = Some (w', th') →
  ∃ O' I' dobs dinc,
    pool_owes w' (<[idx := th']> ths) O' I'
    ∧ O = (dobs + O')%nat ∧ I = (dinc + I')%nat
    ∧ advances w w' dobs dinc.
Proof.
  intros H. revert idx.
  induction H as [|th0 ths b o i O I Ho Hb Hrest IH]; intros idx Hidx Hstep; [done|].
  destruct idx as [|idx]; simpl in Hidx.
  - injection Hidx as ->.
    destruct (thread_step_owes _ _ _ _ _ _ _ Hstep Ho Hb)
      as (b' & o' & i' & dobs & dinc & Ho' & Hb' & -> & -> & Hadv).
    exists (o' + O)%nat, (i' + I)%nat, dobs, dinc.
    split; [|split; [lia|split; [lia|done]]].
    simpl. econstructor; eauto.
    eapply pool_owes_mono; [|exact Hrest]. apply Hadv.
  - destruct (IH idx Hidx Hstep) as (O' & I' & dobs & dinc & Hrest' & -> & -> & Hadv).
    exists (o + O')%nat, (i + I')%nat, dobs, dinc.
    split; [|split; [lia|split; [lia|done]]].
    simpl. econstructor; eauto.
    intros Hbt. apply Hadv. auto.
Qed.

(** ** The invariant of a pool that started with [n] calls of [index] *)

Lemma pool_inv_spawn t0 rs : pool_inv (calls "/" rs) (spawn rs (fresh t0)).
Proof.
  split; [apply fresh_well_formed|].
  exists (calls "/" rs), (calls "/" rs).
  split; [apply pool_owes_spawn|].
  unfold spawn; cbn [world].
  unfold counter_total, counter_value, histogram_count, fresh;
    cbn [count_children latency_buckets].
  rewrite map_fold_empty, lookup_empty. vm_compute (total _). simpl.
  repeat split; ring.
Qed.

Lemma pool_inv_advances n w w' ths' O I O' I' dobs dinc :
  well_formed w → advances w w' dobs dinc →
  O = (dobs + O')%nat → I = (dinc + I')%nat →
  pool_owes w' ths' O' I' →
  (counter_total w + Qnat I == Qnat n)%Q →
  (counter_value index_key w + Qnat I == Qnat n)%Q →
  (histogram_count w + Qnat O == Qnat n)%Q →
  pool_inv n {| world := w'; threads := ths' |}.
Proof.
  intros Hwf (Hp & Hwf' & Ht & Hv & Hc) -> -> Howes Htot Hval Hcnt.
  split; [by apply Hwf'|]. exists O', I'. cbn [world threads].
  split; [done|]. specialize (Hc Hwf).
  rewrite Qnat_add in Htot, Hval, Hcnt.
  rewrite Ht, Hv, Hc. repeat split; lra.
Qed.

Lemma pool_inv_step n a p p' :
  pool_step a p = Some p' → pool_inv n p → pool_inv n p'.
Proof.
  intros Hstep (Hwf & O & I & Howes & Htot & Hval & Hcnt).
  destruct a as [dt|idx]; simpl in Hstep.
  - destruct (Qle_bool 0 dt); [|done]. injection Hstep as <-.
    eapply (pool_inv_advances n (world p) _ _ O I O I 0 0); eauto.
    + apply advances_now.
    + eapply pool_owes_mono; [|exact Howes]. done.
  - destruct (threads p !! idx) as [th|] eqn:Hidx; [|done].
    destruct (thread_step (world p) th) as [[w' th']|] eqn:Hth; [|done].
    injection Hstep as <-.
    destruct (pool_owes_step _ _ _ _ _ _ _ _ Howes Hidx Hth)
      as (O' & I' & dobs & dinc & Howes' & HO & HI & Hadv).
    eapply pool_inv_advances; eauto.
Qed.

Lemma pool_inv_run n sched p p' :
  pool_run sched p = Some p' → pool_inv n p → pool_inv n p'.
Proof.
  revert p. induction sched as [|a sched IH]; intros p Hrun Hinv; simpl in Hrun.
  - by injection Hrun as <-.
  - destruct (pool_step a p) as [p1|] eqn:Hstep; [|done].
    eauto using pool_inv_step.
Qed.

(** Finished threads owe nothing, and they all answered. *)
Lemma pool_owes_finished w ths O I :
  pool_owes w ths O I → forallb finished ths = true →
  O = 0%nat ∧ I = 0%nat ∧ Forall answered ths.
Proof.
  induction 1 as [|th ths b o i O I Ho Hb _ IH]; intros Hfin; [by repeat split|].
  simpl in Hfin. apply andb_prop in Hfin as [Hth Hfin].
  destruct (IH Hfin) as (-> & -> & Hans).
  destruct th as [code env wake]. unfold finished in Hth. cbn [t_code] in Ho, Hth.
  destruct Ho; try done.
  repeat split; try done. constructor; [|done]. by eexists.
Qed.

(** ** A request on its own is one of the interleavings *)

Lemma solo_index e w :
  (0 <= oversleep e)%Q →
  pool_run (solo e) (spawn [("/", e)] w)
  = Some {| world := index_world e w;
            threads := [ {| t_code := Ret (jsonify (index_body (index_latency e w)));
                            t_env := e; t_wake := None |} ] |}.
Proof.
  intros Hover. pose proof (index_secs_range e) as [Hlo Hhi].
  unfold solo, spawn. cbn [fmap list_fmap fst snd].
  change (dispatch "/") with index. unfold index. rewrite labels_index.
  cbn [pool_run pool_step threads world lookup list_lookup thread_step t_code
       t_env t_wake bind time_time random_uniform random_random continue
       insert list_insert fmap list_fmap].
  fold (unit_draw (rand_bits e)). fold (index_secs e).
  rewrite time_sleep_nonneg by lra.
  cbn [pool_run pool_step threads world lookup list_lookup thread_step t_code
       t_env t_wake bind continue insert list_insert set_now now].
  rewrite (proj2 (Qle_bool_iff 0 (index_secs e))) by lra.
  cbn [pool_run pool_step threads world lookup list_lookup thread_step t_code
       t_env t_wake bind continue insert list_insert set_now now].
  rewrite (proj2 (Qle_bool_iff 0 (oversleep e))) by lra.
  cbn [pool_run pool_step threads world lookup list_lookup thread_step t_code
       t_env t_wake bind continue insert list_insert set_now now].
  rewrite (proj2 (Qle_bool_iff (now w + index_secs e)
                               (now w + index_secs e + oversleep e))) by lra.
  reflexivity.
Qed.

(** ** Concurrent handling: observation before increment *)

Lemma owes_ordered_owes {A} b o i (p : Prog A) : owes_ordered b o i p → owes b o i p.
Proof. induction 1; constructor; auto. Qed.

Lemma owes_ordered_le {A} b o i (p : Prog A) : owes_ordered b o i p → (o ≤ i)%nat.
Proof.
  induction 1 as [b a|b o i k _ IH|b o i k _ IH|b o i secs k _ IH|b o i x k _ IH Hle
                 |b o i k _ IH|o i k _ IH|b o i k _ IH]; try done.
  - apply (IH 0%Q).
  - apply (IH 0%Z).
  - lia.
  - apply (IH []).
Qed.

Lemma owes_unique {A} b o i b' o' i' (p : Prog A) :
  owes b o i p → owes b' o' i' p → o = o' ∧ i = i'.
Proof.
  intros H. revert b' o' i'.
  induction H as [b a|b o i k _ IH|b o i k _ IH|b o i secs k _ IH|b o i x k _ IH
                 |b o i k _ IH|o i k _ IH|b o i k _ IH];
    intros b' o' i' H'; inversion H'; subst.
  - done.
  - eapply (IH 0%Q); eauto.
  - eapply (IH 0%Z); eauto.
  - eapply IH; eauto.
  - edestruct IH as [-> ->]; eauto.
  - eapply IH; eauto.
  - edestruct IH as [-> ->]; eauto.
  - eapply (IH []); eauto.
Qed.

Lemma ordered_index : owes_ordered false 1 1 index.
Proof.
  unfold index. rewrite labels_index. simpl.
  constructor; intros start. constructor; intros n.
  fold (unit_draw n).
  rewrite time_sleep_nonneg by (pose proof (unit_draw_range n); lra).
  simpl. repeat (constructor; try lia).
Qed.

Lemma ordered_dispatch path : ∃ b o i, owes_ordered b o i (dispatch path).
Proof.
  rewrite dispatch_spec.
  destruct (decide (path = "/")); [eauto using ordered_index|].
  destruct (decide (path = "/healthz")); [exists false, 0%nat, 0%nat; constructor|].
  destruct (decide (path = "/metrics")); exists false, 0%nat, 0%nat; repeat constructor.
Qed.

Lemma spawn_ordered rs w : Forall ordered (threads (spawn rs w)).
Proof.
  unfold spawn; cbn [threads]. apply Forall_fmap, Forall_forall.
  intros r _. apply ordered_dispatch.
Qed.

Lemma thread_step_ordered w th w' th' :
  thread_step w th = Some (w', th') → ordered th → ordered th'.
Proof.
  intros Hstep (b & o & i & Ho). destruct th as [code env wake].
  unfold ordered. cbn [t_code] in Ho.
  unfold thread_step in Hstep. cbn [t_code t_env t_wake] in Hstep.
  destruct Ho as [b a|b o i k Hk|b o i k Hk|b o i secs k Hk|b o i x k Hk Hle
                 |b o i k Hk|o i k Hk|b o i k Hk].
  - done.
  - injection Hstep as <- <-. cbn [t_code continue]. eauto.
  - injection Hstep as <- <-. cbn [t_code continue]. eauto.
  - destruct wake as [t|].
    + destruct (Qle_bool t (now w)); [|done].
      injection Hstep as <- <-. cbn [t_code continue]. eauto.
    + injection Hstep as <- <-. cbn [t_code]. eauto using @owes_ordered.
  - injection Hstep as <- <-. cbn [t_code continue]. eauto.
  - injection Hstep as <- <-. cbn [t_code continue]. eauto.
  - injection Hstep as <- <-. cbn [t_code continue]. eauto.
  - injection Hstep as <- <-. cbn [t_code continue]. eauto.
Qed.

(** A step asks for no child but that of [index_key]. *)
Lemma thread_step_keys w th w' th' :
  thread_step w th = Some (w', th') → ordered th →
  dom (count_children w) ⊆ {[index_key]} → dom (count_children w') ⊆ {[index_key]}.
Proof.
  intros Hstep (b & o & i & Ho) Hdom. destruct th as [code env wake].
  cbn [t_code] in Ho.
  unfold thread_step in Hstep. cbn [t_code t_env t_wake] in Hstep.
  destruct Ho as [b a|b o i k Hk|b o i k Hk|b o i secs k Hk|b o i x k Hk Hle
                 |b o i k Hk|o i k Hk|b o i k Hk].
  - done.
  - by injection Hstep as <- <-.
  - by injection Hstep as <- <-.
  - destruct wake as [t|]; [destruct (Qle_bool t (now w)); [|done]|];
      by injection Hstep as <- <-.
  - by injection Hstep as <- <-.
  - injection Hstep as <- <-. unfold get_child.
    destruct (count_children w !! index_key); [done|].
    cbn [count_children set_count_children]. rewrite dom_insert_L.
    by apply union_least.
  - injection Hstep as <- <-. unfold child_inc.
    cbn [count_children set_count_children]. by rewrite dom_alter_L.
  - by injection Hstep as <- <-.
Qed.

Lemma pool_step_ordered a p p' :
  pool_step a p = Some p' →
  Forall ordered (threads p) ∧ dom (count_children (world p)) ⊆ {[index_key]} →
  Forall ordered (threads p') ∧ dom (count_children (world p')) ⊆ {[index_key]}.
Proof.
  intros Hstep [Hall Hdom]. destruct a as [dt|idx]; simpl in Hstep.
  - destruct (Qle_bool 0 dt); [|done]. by injection Hstep as <-.
  - destruct (threads p !! idx) as [th|] eqn:Hidx; [|done].
    destruct (thread_step (world p) th) as [[w' th']|] eqn:Hth; [|done].
    injection Hstep as <-. cbn [threads world].
    assert (ordered th) as Hord by (eapply Forall_lookup_1; eauto).
    split.
    + apply Forall_insert; [done|]. eapply thread_step_ordered; eauto.
    + eapply thread_step_keys; eauto.
Qed.

Lemma pool_run_ordered sched p p' :
  pool_run sched p = Some p' →
  Forall ordered (threads p) ∧ dom (count_children (world p)) ⊆ {[index_key]} →
  Forall ordered (threads p') ∧ dom (count_children (world p')) ⊆ {[index_key]}.
Proof.
  revert p. induction sched as [|a sched IH]; intros p Hrun Hinv; simpl in Hrun.
  - by injection Hrun as <-.
  - destruct (pool_step a p) as [p1|] eqn:Hstep; [|done].
    eauto using pool_step_ordered.
Qed.

Lemma pool_owes_ordered_le w ths O I :
  pool_owes w ths O I → Forall ordered ths → (O ≤ I)%nat.
Proof.
  induction 1 as [|th ths b o i O I Ho _ _ IH]; intros Hall; [done|].
  apply Forall_cons in Hall as [(b' & o' & i' & Ho') Hall].
  pose proof (owes_ordered_le _ _ _ _ Ho') as Hle.
  apply owes_ordered_owes in Ho'.
  destruct (owes_unique _ _ _ _ _ _ _ Ho Ho') as [-> ->].
  specialize (IH Hall). lia.
Qed.

Lemma Qnat_le a b : (a ≤ b)%nat → (Qnat a <= Qnat b)%Q.
Proof. intros H. unfold Qnat. rewrite <- Zle_Qle. lia. Qed.

(** ** Nothing is ever reset *)










(** * The claims *)

(** C1.  After a history in which the work-simulation view was called [N]
    times (whatever else was requested in between), the counter value for
    the key endpoint="/", method="GET", http_status="200" is [N]; in
    particular [N] calls in a row give [N].  One call adds 1 to that key,
    leaves every other key as it was, and performs exactly two metric
    mutations: one histogram observation, then one counter increment
    (fetching the child creates it at zero on the first call and changes
    no value). *)
Theorem index_counts_its_calls :
  (∀ t0 rs,
     (counter_value index_key (serve (fresh t0) rs) == Qnat (calls "/" rs))%Q)
  ∧ (∀ t0 (es : list Env),
       (counter_value index_key (serve (fresh t0) ((λ e, ("/", e)) <$> es))
        == Qnat (length es))%Q)
  ∧ (∀ e w,
       let o := run index e w in
       counter_value index_key (world_of o) = (counter_value index_key w + 1)%Q
       ∧ (∀ lv, lv ≠ index_key →
                count_children (world_of o) !! lv = count_children w !! lv)
       ∧ ∃ x, mutations (trace_of o) = [EObserve x; EInc index_key 1])
  ∧ (∀ lv w, counter_value lv (get_child index_key w) = counter_value lv w).
Proof.
  split; [|split; [|split]].
  - intros t0 rs. rewrite serve_value. unfold counter_value, fresh; simpl.
    rewrite lookup_empty; simpl. ring.
  - intros t0 es. rewrite serve_value.
    assert (calls "/" ((λ e, ("/", e)) <$> es) = length es) as ->.
    { induction es as [|e es IH]; [done|].
      rewrite fmap_cons, calls_cons. cbn [fst]. rewrite decide_True by done.
      simpl. by rewrite IH. }
    unfold counter_value, fresh; simpl. rewrite lookup_empty; simpl. ring.
  - intros e w o. subst o. rewrite run_index. unfold world_of, trace_of; cbn [fst snd].
    split; [apply index_world_value|]. split.
    + intros lv Hne. rewrite index_world_lookup. by rewrite decide_False.
    + by exists (index_latency e w).
  - intros lv w. apply get_child_value.
Qed.

(** C2, as stated, fails: the latency is not bounded below by 0.005.  On
    binary64, with the clock at 100 s and a sleep that lasts exactly 5 ms,
    the second reading is the float nearest to 100.005 and the difference
    computed by line 24 is below 0.005.  And the wall clock may be set back
    while the request sleeps: with a step of one second the latency the view
    reports is negative. *)
Lemma index_latency_bound_counterexample :
  PrimFloat.ltb
    (latency_binary64 (reading 100%uint63 1%uint63) (reading 100005%uint63 1000%uint63))
    (reading 5%uint63 1000%uint63)
  = true
  ∧ ∃ l,
      result_of (run index set_back (fresh 100))
      = Ok (jsonify [("ok", JBool true); ("latency_seconds", JFloat l)])
      ∧ (l < 0.005)%Q.
Proof.
  split; [reflexivity|].
  exists (index_latency set_back (fresh 100)). rewrite run_index.
  split; [reflexivity|]. vm_compute. reflexivity.
Qed.

(** C2, amended.  Every call of the work-simulation view answers 200 with
    the JSON object {ok: true, latency_seconds: l}; the view raises nothing,
    so the framework never turns its answer into an error response.  The
    duration the view asks to sleep for lies between 0.005 and 0.2, and l
    is the second clock reading minus the first; no bound on l itself is
    stated. *)
Theorem index_answers_with_measured_latency e w :
  ∃ start t secs,
    trace_of (run index e w)
    = [ETime start; ERandom (rand_bits e); ESleep secs; ETime t;
       EObserve (t - start)%Q; ELabels index_key; EInc index_key 1]
    ∧ result_of (run index e w)
      = Ok {| status := 200; content_type := Some "application/json";
              body := BJson [("ok", JBool true);
                             ("latency_seconds", JFloat (t - start)%Q)] |}
    ∧ (handle ("/", e) w).1
      = {| status := 200; content_type := Some "application/json";
           body := BJson [("ok", JBool true);
                          ("latency_seconds", JFloat (t - start)%Q)] |}
    ∧ (0.005 <= secs)%Q ∧ (secs <= 0.2)%Q.
Proof.
  exists (now w), (index_end e w), (index_secs e).
  rewrite run_index, handle_index.
  split; [done|]. split; [done|]. split; [done|]. apply index_secs_range.
Qed.

(** C3.  The declared bucket bounds of the latency histogram are, in
    milliseconds, 5, 10, 25, 50, 100, 250, 500, 1000, 2000, 5000.  In every
    reachable state a call of the work-simulation view observes one sample,
    the duration it measured (the second clock reading minus the first, in
    seconds): the sum grows by the sample, the number of samples by one, and
    the cumulative count of a bucket grows by one if its bound is at least
    the sample and stays as it was otherwise. *)
Theorem latency_histogram_observation :
  Forall2 Qeq ((λ q, q * 1000)%Q <$> h_buckets REQUEST_LATENCY)
          [5; 10; 25; 50; 100; 250; 500; 1000; 2000; 5000]%Q
  ∧ ∀ t0 rs e,
      let w := serve (fresh t0) rs in
      let o := run index e w in
      ∃ start t,
        trace_of o
        = [ETime start; ERandom (rand_bits e); ESleep (index_secs e); ETime t;
           EObserve (t - start)%Q; ELabels index_key; EInc index_key 1]
        ∧ latency_sum (world_of o) = (latency_sum w + (t - start))%Q
        ∧ (histogram_count (world_of o) == histogram_count w + 1)%Q
        ∧ ∀ i b, upper_bounds REQUEST_LATENCY !! i = Some b →
            (bucket_count i (world_of o)
             == bucket_count i w + (if le_bound (t - start) b then 1 else 0))%Q.
Proof.
  split.
  - repeat constructor.
  - intros t0 rs e w o. subst o.
    assert (well_formed w) as Hwf by apply serve_well_formed, fresh_well_formed.
    rewrite run_index. unfold world_of, trace_of; cbn [fst snd].
    exists (now w), (index_end e w). split; [done|].
    split; [apply index_world_latency|].
    split; [by apply index_world_count|].
    intros i b Hi. by apply index_world_bucket.
Qed.




(** C5.  The liveness view answers the fixed text "ok" with status 200 and
    performs no effect at all; any number of liveness requests leaves the
    whole state, hence the counter and histogram totals, as it was. *)
Theorem healthz_leaves_metrics_alone :
  (∀ e w,
     run healthz e w
     = (Ok {| status := 200; content_type := None; body := BText "ok" |}, w, []))
  ∧ (∀ e w,
       handle ("/healthz", e) w
       = ({| status := 200; content_type := None; body := BText "ok" |}, w))
  ∧ (∀ (es : list Env) w,
       let w' := serve w ((λ e, ("/healthz", e)) <$> es) in
       w' = w
       ∧ counter_total w' = counter_total w
       ∧ histogram_count w' = histogram_count w
       ∧ latency_sum w' = latency_sum w).
Proof.
  split; [done|]. split; [done|].
  intros es w w'.
  assert (w' = w) as ->; [|done].
  subst w'. induction es as [|e es IH]; [done|]. exact IH.
Qed.

(** C6.  The exposition view answers 200 with the content type of the text
    exposition format and, as body, the serialization of the state it is
    called in: every counter child appears with its current value, and the
    histogram with its current number of samples and sum.  The call performs
    no metric mutation and leaves the state as it was. *)
Theorem metrics_is_a_snapshot e w :
  run metrics e w
  = (Ok {| status := 200;
           content_type := Some "text/plain; version=0.0.4; charset=utf-8";
           body := BMetrics (collect (builtin e) w) |},
     w, [ECollect])
  ∧ (handle ("/metrics", e) w).2 = w
  ∧ (∀ lv v, count_children w !! lv = Some v →
       {| s_name := "sample_app_request_total";
          s_labels := zip ["endpoint"; "method"; "http_status"] (LStr <$> lv);
          s_value := v |} ∈ collect (builtin e) w)
  ∧ {| s_name := "sample_app_request_latency_seconds_count"; s_labels := [];
       s_value := histogram_count w |} ∈ collect (builtin e) w
  ∧ {| s_name := "sample_app_request_latency_seconds_sum"; s_labels := [];
       s_value := latency_sum w |} ∈ collect (builtin e) w.
Proof.
  split; [done|]. split; [done|].
  split; [apply collect_child|]. split; [apply collect_count|apply collect_sum].
Qed.

(** C7.  From a fresh state, one call of the work-simulation view followed
    by one call of the exposition view: the exposition contains the series
    of the request counter with labels endpoint="/", method="GET",
    http_status="200" and value 1. *)
Theorem index_then_metrics t0 e1 e2 :
  ∃ samples,
    (handle ("/metrics", e2) (serve (fresh t0) [("/", e1)])).1
    = {| status := 200;
         content_type := Some "text/plain; version=0.0.4; charset=utf-8";
         body := BMetrics samples |}
    ∧ {| s_name := "sample_app_request_total";
         s_labels := [("endpoint", LStr "/"); ("method", LStr "GET");
                      ("http_status", LStr "200")];
         s_value := 1 |} ∈ samples.
Proof.
  eexists. split; [reflexivity|].
  cbn [serve]. rewrite handle_index. cbn [snd].
  apply (collect_child (builtin e2) (index_world e1 (fresh t0)) index_key 1%Q).
  rewrite index_world_lookup. rewrite decide_True by done. reflexivity.
Qed.

(** C9.  The latency the work-simulation view reports in its JSON answer is
    the very value it recorded into the histogram: the call observes one
    amount, that amount is what the sum grows by, and it is the
    latency_seconds field of the response. *)
Theorem index_reports_observed_latency e w :
  ∃ x,
    result_of (run index e w)
    = Ok (jsonify [("ok", JBool true); ("latency_seconds", JFloat x)])
    ∧ filter is_observation (trace_of (run index e w)) = [EObserve x]
    ∧ latency_sum (world_of (run index e w)) = (latency_sum w + x)%Q.
Proof.
  exists (index_latency e w). rewrite run_index.
  unfold result_of, world_of, trace_of; cbn [fst snd].
  split; [done|]. split; [done|]. apply index_world_latency.
Qed.

(** C10.  In every reachable state the request counter has at most one
    child, the one for endpoint="/", method="GET", http_status="200". *)
Theorem counter_single_key t0 rs :
  dom (count_children (serve (fresh t0) rs)) ⊆ {[index_key]}
  ∧ (size (count_children (serve (fresh t0) rs)) ≤ 1)%nat.
Proof.
  assert (dom (count_children (serve (fresh t0) rs)) ⊆ {[index_key]}) as Hdom.
  { intros lv Hlv. apply elem_of_dom in Hlv.
    apply serve_keys in Hlv as [->|[v Hv]]; [set_solver|].
    cbn [fresh count_children] in Hv. by rewrite lookup_empty in Hv. }
  split; [exact Hdom|].
  rewrite <- size_dom. apply subseteq_size in Hdom.
  by rewrite size_singleton in Hdom.
Qed.

(** C8.  Requests handled concurrently, every call into the metrics client
    being one atomic step: whatever the interleaving of the steps of the
    calls and the passing of time, once all calls have returned the counter
    (summed, and for the key of the work-simulation view) and the number of
    samples of the histogram equal the number of calls of the
    work-simulation view, and every call has answered; with 100 concurrent
    calls the counter is 100.  No update is lost. *)
Theorem concurrent_calls_lose_no_update t0 rs sched p :
  pool_run sched (spawn rs (fresh t0)) = Some p →
  all_finished p = true →
  (counter_total (world p) == Qnat (calls "/" rs))%Q
  ∧ (counter_value index_key (world p) == Qnat (calls "/" rs))%Q
  ∧ (histogram_count (world p) == Qnat (calls "/" rs))%Q
  ∧ Forall answered (threads p).
Proof.
  intros Hrun Hfin.
  destruct (pool_inv_run _ _ _ _ Hrun (pool_inv_spawn t0 rs))
    as (_ & O & I & Howes & Htot & Hval & Hcnt).
  destruct (pool_owes_finished _ _ _ _ Howes Hfin) as (-> & -> & Hans).
  change (Qnat 0) with 0%Q in *.
  repeat split; try done; lra.
Qed.

Lemma concurrent_calls_lose_no_update_witness :
  ∃ p,
    pool_run (lockstep 100) (spawn hundred_calls (fresh 0)) = Some p
    ∧ all_finished p = true
    ∧ (counter_total (world p) == 100)%Q
    ∧ (histogram_count (world p) == 100)%Q.
Proof.
  assert (∃ p, pool_run (lockstep 100) (spawn hundred_calls (fresh 0)) = Some p
               ∧ all_finished p = true) as (p & Hrun & Hfin).
  { vm_compute. eexists. split; [reflexivity|]. vm_compute. reflexivity. }
  exists p. split; [exact Hrun|]. split; [exact Hfin|].
  destruct (concurrent_calls_lose_no_update 0 hundred_calls (lockstep 100) p Hrun Hfin)
    as (Htot & _ & Hcnt & _).
  split; [rewrite Htot|rewrite Hcnt]; vm_compute; reflexivity.
Defined.

(** * Further properties *)

(** ** What each request is answered *)

Lemma handle_response r w :
  (handle r w).1
  = if decide (r.1 = "/") then jsonify (index_body (index_latency r.2 w))
    else if decide (r.1 = "/healthz") then text_response "ok" 200
    else if decide (r.1 = "/metrics")
         then data_response (collect (builtin r.2) w) 200 CONTENT_TYPE_LATEST
    else not_found.
Proof.
  destruct r as [path e]. cbn [fst snd].
  destruct (decide (path = "/")) as [->|H1]; [by rewrite handle_index|].
  unfold handle. cbn [fst snd]. rewrite dispatch_spec.
  rewrite decide_False by done.
  destruct (decide (path = "/healthz")); [done|].
  destruct (decide (path = "/metrics")); done.
Qed.

Lemma reported_latency_handle r w :
  reported_latency (handle r w).1
  = if decide (r.1 = "/") then Some (index_latency r.2 w) else None.
Proof.
  rewrite handle_response.
  destruct (decide (r.1 = "/")); [done|].
  destruct (decide (r.1 = "/healthz")); [done|].
  destruct (decide (r.1 = "/metrics")); done.
Qed.



(** X1.  Requests that are not for the work-simulation view can be dropped
    from a history without changing the state it leads to: liveness checks,
    scrapes and unknown paths, wherever they fall among the calls, leave no
    trace in the metrics (nor in the clock of the model). *)
Theorem other_requests_change_nothing w rs :
  serve w rs = serve w (filter (λ r : Request, r.1 = "/") rs).
Proof.
  revert w. induction rs as [|r rs IH]; intros w; [done|].
  rewrite filter_cons. cbn [serve].
  pose proof (handle_world r w) as Hw.
  destruct (decide (r.1 = "/")).
  - cbn [serve]. apply IH.
  - rewrite Hw. apply IH.
Qed.

(** X3.  A call of the work-simulation view sleeps exactly once, and the
    duration it asks for lies between 5 ms and 200 ms whatever bits the
    random source delivers. *)
Theorem index_sleeps_once e w :
  ∃ secs,
    filter is_sleep (trace_of (run index e w)) = [ESleep secs]
    ∧ (0.005 <= secs)%Q ∧ (secs <= 0.2)%Q.
Proof.
  exists (index_secs e). rewrite run_index. split; [done|].
  apply index_secs_range.
Qed.


(** ** The histogram over a history *)

Lemma takes_handle b r w :
  takes b (handle r w).1
  = if decide (r.1 = "/") then le_bound (index_latency r.2 w) b else false.
Proof.
  unfold takes. rewrite reported_latency_handle. by destruct (decide (r.1 = "/")).
Qed.

Lemma hits_cons b resp resps :
  hits b (resp :: resps) = if takes b resp then S (hits b resps) else hits b resps.
Proof.
  unfold hits. rewrite filter_cons. destruct (takes b resp); [|done].
  by rewrite decide_True.
Qed.

Lemma hits_PosInf w rs : hits PosInf (responses w rs) = calls "/" rs.
Proof.
  revert w. induction rs as [|r rs IH]; intros w; [done|].
  cbn [responses]. rewrite hits_cons, calls_cons, takes_handle, IH.
  by destruct (decide (r.1 = "/")).
Qed.

(** What a bucket holds after a history: what it held, and the responses
    whose reported latency it takes. *)
Lemma serve_bucket w rs i b :
  well_formed w → upper_bounds REQUEST_LATENCY !! i = Some b →
  (bucket_count i (serve w rs)
   == bucket_count i w + Qnat (hits b (responses w rs)))%Q.
Proof.
  intros Hwf Hi. revert w Hwf. induction rs as [|r rs IH]; intros w Hwf.
  - simpl. change (Qnat _) with 0%Q. ring.
  - cbn [serve responses]. rewrite IH by by apply handle_well_formed.
    rewrite hits_cons, takes_handle, handle_world.
    destruct (decide (r.1 = "/")) as [E|E]; [|ring].
    rewrite (index_world_bucket r.2 w i b Hwf Hi).
    destruct (le_bound (index_latency r.2 w) b); [|ring].
    rewrite Qnat_S. ring.
Qed.

Lemma total_take_zeros {A} (l : list A) n : (total (take n ((λ _, 0%Q) <$> l)) == 0)%Q.
Proof.
  revert n. induction l as [|a l IH]; intros [|n]; try reflexivity.
  cbn [fmap list_fmap take]. rewrite total_cons, IH. ring.
Qed.

Lemma fresh_bucket_count i t0 : (bucket_count i (fresh t0) == 0)%Q.
Proof. unfold bucket_count, fresh; cbn [latency_buckets]. apply total_take_zeros. Qed.




Lemma hits_all b resps :
  forallb (λ resp, implb (reports resp) (takes b resp)) resps = true →
  hits b resps = hits PosInf resps.
Proof.
  induction resps as [|resp resps IH]; [done|]. simpl. intros H.
  apply andb_prop in H as [Hresp H]. rewrite !hits_cons, (IH H).
  unfold reports, takes in Hresp |- *.
  destruct (reported_latency resp) as [x|]; [|done].
  cbn [le_bound]. simpl in Hresp. by rewrite Hresp.
Qed.

Lemma hits_none b resps :
  forallb (λ resp, negb (takes b resp)) resps = true → hits b resps = 0%nat.
Proof.
  induction resps as [|resp resps IH]; [done|]. simpl. intros H.
  apply andb_prop in H as [Hresp H]. rewrite hits_cons, (IH H).
  by destruct (takes b resp).
Qed.

(** X7.  The cumulative-count invariant of the histogram: after any history,
    a bucket whose bound is at least every latency the responses reported
    counts every call of the work-simulation view, and a bucket whose bound
    is below every reported latency is empty. *)
Theorem bucket_against_all_reports t0 rs i b :
  upper_bounds REQUEST_LATENCY !! i = Some b →
  (forallb (λ resp, implb (reports resp) (takes b resp)) (responses (fresh t0) rs) = true →
   (bucket_count i (serve (fresh t0) rs) == Qnat (calls "/" rs))%Q)
  ∧ (forallb (λ resp, negb (takes b resp)) (responses (fresh t0) rs) = true →
     (bucket_count i (serve (fresh t0) rs) == 0)%Q).
Proof.
  intros Hi.
  pose proof (serve_bucket _ rs i b (fresh_well_formed t0) Hi) as Hclosed.
  rewrite fresh_bucket_count in Hclosed.
  split; intros H; rewrite Hclosed.
  - rewrite (hits_all _ _ H), hits_PosInf. ring.
  - rewrite (hits_none _ _ H). change (Qnat 0) with 0%Q. ring.
Qed.

Lemma bucket_against_all_reports_witness :
  (bucket_count 5 (serve (fresh 0) [("/", midway); ("/healthz", quiet); ("/", quiet)])
   == Qnat (calls "/" [("/", midway); ("/healthz", quiet); ("/", quiet)]))%Q
  ∧ (bucket_count 4 (serve (fresh 0) [("/", midway); ("/healthz", quiet)]) == 0)%Q.
Proof.
  split.
  - apply (bucket_against_all_reports 0 _ 5 (Finite 0.25)); [reflexivity|].
    vm_compute. reflexivity.
  - apply (bucket_against_all_reports 0 _ 4 (Finite 0.1)); [reflexivity|].
    vm_compute. reflexivity.
Defined.

(** ** The counter in the exposition *)

Lemma serve_lookup w rs lv :
  count_children (serve w rs) !! lv
  = if decide (lv = index_key ∧ calls "/" rs ≠ 0%nat)
    then Some (counter_value index_key (serve w rs))
    else count_children w !! lv.
Proof.
  revert w. induction rs as [|r rs IH]; intros w.
  - rewrite decide_False; [done|]. intros [_ H]. by apply H.
  - cbn [serve]. rewrite calls_cons. pose proof (handle_world r w) as Hw.
    destruct (decide (r.1 = "/")) as [E|E]; rewrite Hw in *; clear Hw.
    + destruct (decide (lv = index_key)) as [->|Hne].
      * rewrite decide_True by done.
        unfold counter_value. rewrite IH.
        destruct (decide (index_key = index_key ∧ calls "/" rs ≠ 0%nat)); [done|].
        rewrite index_world_lookup, decide_True by done. done.
      * rewrite decide_False by tauto. rewrite IH.
        rewrite decide_False by tauto.
        rewrite index_world_lookup. by rewrite decide_False.
    + rewrite IH. destruct (decide (lv = index_key ∧ calls "/" rs ≠ 0%nat)); done.
Qed.

Lemma serve_children t0 rs :
  count_children (serve (fresh t0) rs)
  = if decide (calls "/" rs = 0%nat) then ∅
    else {[ index_key := counter_value index_key (serve (fresh t0) rs) ]}.
Proof.
  apply map_eq. intros lv. rewrite serve_lookup. cbn [fresh count_children].
  destruct (decide (calls "/" rs = 0%nat)) as [E|E].
  - rewrite decide_False; [done|]. tauto.
  - destruct (decide (lv = index_key)) as [->|Hne].
    + rewrite decide_True by done. by rewrite lookup_singleton_eq.
    + rewrite decide_False by tauto. by rewrite lookup_empty, lookup_singleton_ne.
Qed.

Lemma filter_none {A} (P : A → Prop) `{∀ x, Decision (P x)} (l : list A) :
  Forall (λ x, ¬ P x) l → filter P l = [].
Proof.
  induction 1 as [|x l Hx _ IH]; [done|].
  rewrite filter_cons, decide_False by done. exact IH.
Qed.

Lemma histogram_samples_names counts sum :
  Forall (λ s, ¬ s_name s = "sample_app_request_total")
         (histogram_samples REQUEST_LATENCY counts sum).
Proof.
  unfold histogram_samples. apply Forall_app. split.
  - apply Forall_fmap, Forall_forall. intros bv _. simpl. discriminate.
  - repeat constructor; simpl; discriminate.
Qed.

(** X8.  What a scrape shows under the name of the request counter after any
    history: beside what the built-in collectors may contribute, no series
    at all before the first call of the work-simulation view (the child is
    created by the first call), and from then on exactly one series, with
    labels endpoint="/", method="GET", http_status="200", whose value is
    the number of calls. *)
Theorem exposition_counts_calls t0 rs b :
  filter (λ s, s_name s = "sample_app_request_total") (collect b (serve (fresh t0) rs))
  = (filter (λ s, s_name s = "sample_app_request_total") b
     ++ (if decide (calls "/" rs = 0%nat) then []
         else [index_series (counter_value index_key (serve (fresh t0) rs))]))%list
  ∧ (counter_value index_key (serve (fresh t0) rs) == Qnat (calls "/" rs))%Q.
Proof.
  split.
  - unfold collect. rewrite !filter_app.
    rewrite (filter_none _ _ (histogram_samples_names _ _)), app_nil_r.
    f_equal. rewrite serve_children.
    destruct (decide (calls "/" rs = 0%nat)); [done|].
    unfold counter_samples. rewrite map_to_list_singleton.
    cbn [fmap list_fmap]. by rewrite filter_cons, decide_True.
  - rewrite serve_value. unfold counter_value; cbn [fresh count_children].
    rewrite lookup_empty. simpl. ring.
Qed.

(** X10.  Whatever the interleaving, and at every moment of it (not only
    once all calls have returned): the counter never runs ahead of the
    histogram, because each call observes its latency before it increments
    the counter, and neither exceeds the number of calls of the
    work-simulation view that were started. *)
Theorem counter_never_ahead_of_histogram t0 rs sched p :
  pool_run sched (spawn rs (fresh t0)) = Some p →
  (counter_total (world p) <= histogram_count (world p))%Q
  ∧ (histogram_count (world p) <= Qnat (calls "/" rs))%Q.
Proof.
  intros Hrun.
  destruct (pool_inv_run _ _ _ _ Hrun (pool_inv_spawn t0 rs))
    as (_ & O & I & Howes & Htot & _ & Hcnt).
  assert (Forall ordered (threads p)) as Hord.
  { eapply (pool_run_ordered sched (spawn rs (fresh t0))); [done|].
    split; [apply spawn_ordered|]. cbn [spawn world fresh count_children].
    rewrite dom_empty_L. apply empty_subseteq. }
  pose proof (Qnat_le _ _ (pool_owes_ordered_le _ _ _ _ Howes Hord)) as HOI.
  pose proof (Qnat_le 0 O ltac:(lia)) as HO. change (Qnat 0) with 0%Q in HO.
  split; lra.
Qed.

Lemma counter_never_ahead_of_histogram_witness :
  ∃ p,
    pool_run (observed_only 3) (spawn three_calls (fresh 0)) = Some p
    ∧ (counter_total (world p) == 0)%Q
    ∧ (histogram_count (world p) == 3)%Q
    ∧ (counter_total (world p) <= histogram_count (world p))%Q
    ∧ (histogram_count (world p) <= Qnat (calls "/" three_calls))%Q.
Proof.
  assert (∃ p, pool_run (observed_only 3) (spawn three_calls (fresh 0)) = Some p
               ∧ (counter_total (world p) == 0)%Q
               ∧ (histogram_count (world p) == 3)%Q) as (p & Hrun & H0 & H3).
  { vm_compute. eexists. split; [reflexivity|]. split; vm_compute; reflexivity. }
  exists p. split; [exact Hrun|]. split; [exact H0|]. split; [exact H3|].
  exact (counter_never_ahead_of_histogram 0 three_calls (observed_only 3) p Hrun).
Defined.

(** X11.  Whatever the interleaving, and at every moment of it: no view has
    raised (a thread that is finished has answered), and the request
    counter has no child but the one for endpoint="/", method="GET",
    http_status="200". *)
Theorem concurrent_views_never_raise t0 rs sched p :
  pool_run sched (spawn rs (fresh t0)) = Some p →
  Forall (λ th, finished th = true → answered th) (threads p)
  ∧ dom (count_children (world p)) ⊆ {[index_key]}.
Proof.
  intros Hrun.
  destruct (pool_run_ordered sched (spawn rs (fresh t0)) p Hrun) as [Hord Hdom].
  { split; [apply spawn_ordered|]. cbn [spawn world fresh count_children].
    rewrite dom_empty_L. apply empty_subseteq. }
  split; [|exact Hdom].
  eapply Forall_impl; [exact Hord|].
  intros [code env wake] (b & o & i & Ho) Hfin.
  unfold finished in Hfin. cbn [t_code] in Ho, Hfin.
  destruct Ho; try done. by eexists.
Qed.

Lemma concurrent_views_never_raise_witness :
  ∃ p,
    pool_run (lockstep 3) (spawn three_calls (fresh 0)) = Some p
    ∧ all_finished p = true
    ∧ Forall (λ th, finished th = true → answered th) (threads p)
    ∧ dom (count_children (world p)) ⊆ {[index_key]}.
Proof.
  assert (∃ p, pool_run (lockstep 3) (spawn three_calls (fresh 0)) = Some p
               ∧ all_finished p = true) as (p & Hrun & Hfin).
  { vm_compute. eexists. split; [reflexivity|]. vm_compute. reflexivity. }
  exists p. split; [exact Hrun|]. split; [exact Hfin|].
  exact (concurrent_views_never_raise 0 three_calls (lockstep 3) p Hrun).
Defined.
